(** * Area-weighted global averages (Assignment02 -- Introducing CESM)

    The notebook computes a cosine-of-latitude weight and uses it to take
    global averages of gridded model output:

      coslat         = cos(deg2rad(atm_control.lat))
      weight_factor  = coslat / coslat.mean(dim='lat')
      weight_factor2 = atm_control.gw / atm_control.gw.mean(dim='lat')
      (atm_control.FLNT * weight_factor).mean(dim=('time', 'lon', 'lat'))

    These cells are embedded below together with the part of the labelled
    array library they call: element-wise functions, arithmetic with
    broadcasting by dimension name, and the mean over named dimensions,
    which for floating-point data leaves NaN entries out.

    Numbers.  A float64 is modelled as a real number or one of the three
    non-finite values.  Arithmetic on finite values is exact real
    arithmetic: rounding and the sign of zero are not modelled, so the
    cosine of 90 degrees is exactly 0 here.  The non-finite values follow
    the IEEE-754 rules for x/0, inf - inf and 0 * inf. *)

From Stdlib Require Import Reals Lra Lia List String Bool Arith ZArith.
Import ListNotations.
Open Scope R_scope.

(** * The model *)

(** ** Floating-point values *)

Inductive xfloat : Type :=
| Fin (r : R)
| PInf
| NInf
| NaN.

Definition Rsign (r : R) : comparison :=
  match total_order_T r 0 with
  | inleft (left _) => Lt
  | inleft (right _) => Eq
  | inright _ => Gt
  end.

(** The infinity carrying the sign of [r]; NaN when [r] is zero. *)
Definition signed_inf (r : R) : xfloat :=
  match Rsign r with
  | Gt => PInf
  | Lt => NInf
  | Eq => NaN
  end.

Definition xadd (x y : xfloat) : xfloat :=
  match x, y with
  | NaN, _ | _, NaN => NaN
  | Fin a, Fin b => Fin (a + b)
  | PInf, NInf | NInf, PInf => NaN
  | PInf, _ | _, PInf => PInf
  | NInf, _ | _, NInf => NInf
  end.

Definition xmul (x y : xfloat) : xfloat :=
  match x, y with
  | NaN, _ | _, NaN => NaN
  | Fin a, Fin b => Fin (a * b)
  | Fin a, PInf | PInf, Fin a => signed_inf a
  | Fin a, NInf | NInf, Fin a => signed_inf (- a)
  | PInf, PInf | NInf, NInf => PInf
  | PInf, NInf | NInf, PInf => NInf
  end.

Definition xdiv (x y : xfloat) : xfloat :=
  match x, y with
  | NaN, _ | _, NaN => NaN
  | Fin a, Fin b =>
      match Rsign b with
      | Eq => signed_inf a
      | _ => Fin (a / b)
      end
  | Fin _, _ => Fin 0
  | PInf, Fin b => match Rsign b with Lt => NInf | _ => PInf end
  | NInf, Fin b => match Rsign b with Lt => PInf | _ => NInf end
  | _, _ => NaN
  end.

Definition xcos (x : xfloat) : xfloat :=
  match x with
  | Fin r => Fin (cos r)
  | _ => NaN
  end.

(** numpy's [deg2rad]: multiplication by pi/180. *)
Definition xdeg2rad (x : xfloat) : xfloat := xmul x (Fin (PI / 180)).

Definition is_nan (x : xfloat) : bool :=
  match x with
  | NaN => true
  | _ => false
  end.

Definition is_finite (x : xfloat) : Prop := exists r, x = Fin r.

(** The real number a finite value stands for (0 for the others). *)
Definition to_R (x : xfloat) : R :=
  match x with
  | Fin r => r
  | _ => 0
  end.

(** ** NaN-skipping mean of a list of entries

    [nanmean] replaces NaN entries by zero, sums, and divides by the
    number of entries that were not NaN; with no such entry the result
    is 0/0. *)

Definition nan_to_zero (x : xfloat) : xfloat :=
  if is_nan x then Fin 0 else x.

Definition xsum (l : list xfloat) : xfloat := fold_right xadd (Fin 0) l.

Definition count_valid (l : list xfloat) : nat :=
  List.length (filter (fun x => negb (is_nan x)) l).

Definition nanmean (l : list xfloat) : xfloat :=
  xdiv (xsum (map nan_to_zero l)) (Fin (INR (count_valid l))).

(** ** Labelled arrays (the array library the notebook calls)

    An array has named dimensions, a size per dimension and a value at
    every index (one position per dimension, in the order of [dims]).
    Values at indices outside the sizes are never read. *)

Module xr.

Record DataArray : Type := mkDataArray {
  dims : list string;
  sizes : list nat;
  values : list nat -> xfloat
}.

Inductive exn : Type :=
| ValueError.

Inductive result (A : Type) : Type :=
| Ok (a : A)
| Raise (e : exn).
Arguments Ok {A} a.
Arguments Raise {A} e.

Definition bind {A B : Type} (r : result A) (k : A -> result B) : result B :=
  match r with
  | Ok a => k a
  | Raise e => Raise e
  end.

Notation "x <- r ;; k" := (bind r (fun x => k))
  (at level 61, r at next level, right associativity).

Definition mem (d : string) (ds : list string) : bool :=
  existsb (String.eqb d) ds.

Fixpoint index_of (d : string) (ds : list string) : nat :=
  match ds with
  | [] => 0%nat
  | x :: rest => if String.eqb d x then 0%nat else S (index_of d rest)
  end.

Definition size_of (a : DataArray) (d : string) : nat :=
  nth (index_of d (dims a)) (sizes a) 0%nat.

Fixpoint nodupb (ds : list string) : bool :=
  match ds with
  | [] => true
  | d :: rest => negb (mem d rest) && nodupb rest
  end.

(** A 0-d array holding one number. *)
Definition scalar (x : xfloat) : DataArray :=
  {| dims := []; sizes := []; values := fun _ => x |}.

(** A 1-d array along dimension [d] holding the entries of [l]. *)
Definition vector (d : string) (l : list xfloat) : DataArray :=
  {| dims := [d]; sizes := [List.length l];
     values := fun idx => nth (hd 0%nat idx) l NaN |}.

(** An array of the given shape with the same value everywhere. *)
Definition full (ds : list string) (sz : list nat) (x : xfloat) : DataArray :=
  {| dims := ds; sizes := sz; values := fun _ => x |}.

(** Element-wise function application keeps dimensions and sizes. *)
Definition apply_ufunc (f : xfloat -> xfloat) (a : DataArray) : DataArray :=
  {| dims := dims a; sizes := sizes a; values := fun idx => f (values a idx) |}.

Module ufuncs.
Definition cos (a : DataArray) : DataArray := apply_ufunc xcos a.
Definition deg2rad (a : DataArray) : DataArray := apply_ufunc xdeg2rad a.
End ufuncs.

(** *** Arithmetic with broadcasting by dimension name

    The result carries the dimensions of the left operand followed by
    those of the right operand that the left one lacks.  A dimension the
    operands share must have the same size in both.  Each operand is read
    at the positions of its own dimensions in the result index. *)

Definition select (rdims : list string) (idx : list nat) (ds : list string)
  : list nat :=
  map (fun d => nth (index_of d rdims) idx 0%nat) ds.

Definition broadcast (op : xfloat -> xfloat -> xfloat) (a b : DataArray)
  : result DataArray :=
  let extra := filter (fun d => negb (mem d (dims a))) (dims b) in
  let rdims := (dims a ++ extra)%list in
  if forallb (fun d => negb (mem d (dims a))
                       || Nat.eqb (size_of a d) (size_of b d)) (dims b)
  then Ok {| dims := rdims;
             sizes := (sizes a ++ map (size_of b) extra)%list;
             values := fun idx =>
               op (values a (select rdims idx (dims a)))
                  (values b (select rdims idx (dims b))) |}
  else Raise ValueError.

Definition multiply : DataArray -> DataArray -> result DataArray :=
  broadcast xmul.
Definition divide : DataArray -> DataArray -> result DataArray :=
  broadcast xdiv.

(** *** Mean over named dimensions

    [gather red sz f out] lists the entries of [f] whose index agrees
    with [out] on the kept dimensions, the reduced dimensions ([true] in
    [red]) ranging over their whole size. *)

Fixpoint gather (red : list bool) (sz : list nat) (f : list nat -> xfloat)
  (out : list nat) : list xfloat :=
  match red, sz with
  | true :: red', n :: sz' =>
      flat_map (fun i => gather red' sz' (fun rest => f (i :: rest)) out)
               (seq 0 n)
  | false :: red', _ :: sz' =>
      gather red' sz' (fun rest => f (hd 0%nat out :: rest)) (tl out)
  | _, _ => [f []]
  end.

Fixpoint keep {A : Type} (flags : list bool) (l : list A) : list A :=
  match flags, l with
  | b :: flags', x :: l' => if b then x :: keep flags' l' else keep flags' l'
  | _, _ => []
  end.

(** [a.mean(dim=dim)]: every requested name must be a dimension of [a]
    (and be requested once); the requested dimensions are removed and
    each remaining entry is the NaN-skipping mean over them. *)
Definition mean (dim : list string) (a : DataArray) : result DataArray :=
  if forallb (fun d => mem d (dims a)) dim && nodupb dim then
    let red := map (fun d => mem d dim) (dims a) in
    Ok {| dims := keep (map negb red) (dims a);
          sizes := keep (map negb red) (sizes a);
          values := fun out => nanmean (gather red (sizes a) (values a) out) |}
  else Raise ValueError.

End xr.

Import xr.

(** ** The notebook

    [atm_control] is the opened dataset; only the variables the weighting
    cells read are kept. *)

Record Dataset : Type := mkDataset {
  lat : DataArray;
  lon : DataArray;
  gw : DataArray;
  FLNT : DataArray
}.

Section Cells.

Variable atm_control : Dataset.

(** coslat = cos(deg2rad(atm_control.lat)) *)
Definition coslat : DataArray :=
  ufuncs.cos (ufuncs.deg2rad (lat atm_control)).

(** weight_factor = coslat / coslat.mean(dim='lat') *)
Definition weight_factor : result DataArray :=
  m <- mean ["lat"%string] coslat ;;
  divide coslat m.

(** weight_factor2 = atm_control.gw / atm_control.gw.mean(dim='lat') *)
Definition weight_factor2 : result DataArray :=
  m <- mean ["lat"%string] (gw atm_control) ;;
  divide (gw atm_control) m.

(** (field * weight).mean(dim=dim) *)
Definition weighted_mean (dim : list string) (field : DataArray)
  (weight : result DataArray) : result DataArray :=
  w <- weight ;;
  p <- multiply field w ;;
  mean dim p.

(** (atm_control.FLNT * weight_factor).mean(dim=('time', 'lon', 'lat')) *)
Definition FLNT_global_mean : result DataArray :=
  weighted_mean ["time"; "lon"; "lat"]%string (FLNT atm_control) weight_factor.

(** (atm_control.FLNT * weight_factor2).mean(dim=('time', 'lon', 'lat')) *)
Definition FLNT_global_mean2 : result DataArray :=
  weighted_mean ["time"; "lon"; "lat"]%string (FLNT atm_control) weight_factor2.

(** The cosine-weighted average of any field on the dataset's grid. *)
Definition global_average (dim : list string) (field : DataArray)
  : result DataArray :=
  weighted_mean dim field weight_factor.

End Cells.

(** ** The notebook as a sequence of cells acting on its namespace

    A cell runs its statements in order; an exception ends the cell and
    leaves the bindings made so far. *)
















(** ** Reference quantities over the reals *)

Definition Rsum (l : list R) : R := fold_right Rplus 0 l.

Definition Rmean (l : list R) : R := Rsum l / INR (List.length l).

(** The cosine of a latitude given in degrees. *)
Definition cosd (x : R) : R := Rtrigo_def.cos (x * (PI / 180)).

(** The normalized cosine weight of row [i] of the grid [lats]. *)
Definition w_ref (lats : list R) (i : nat) : R :=
  cosd (nth i lats 0) / Rmean (map cosd lats).



(** One degree, in radians. *)
Definition one_degree : R := PI / 180.

(** ** The reference value of the averager

    Written after the specification: w_i is the cosine of latitude i
    divided by the mean of the cosines, and the reference value is
    (1/(n*m)) times the sum over all rows i and columns j of F[i,j] * w_i.
    Every entry enters the sum, whatever its value. *)



(** ** Vocabulary of the statements *)

(** A latitude coordinate holding the finite values [lats]. *)
Definition lat_coord (lats : list R) : DataArray :=
  vector "lat" (map Fin lats).

(** Indices within the sizes of an array. *)
Definition in_range (sz idx : list nat) : Prop :=
  Forall2 (fun i n => (i < n)%nat) idx sz.

Definition finite_array (a : DataArray) : Prop :=
  forall idx, in_range (sizes a) idx -> is_finite (values a idx).

(** The result is the 0-d array holding [x]. *)
Definition returns_scalar (r : result DataArray) (x : xfloat) : Prop :=
  exists a, r = Ok a /\ dims a = [] /\ sizes a = [] /\ values a [] = x.




(** ** Sample data *)

(** A dataset on the grid [lats]; the variables besides [lat] are
    placeholders of matching shape. *)
Definition dataset_on (lats : list R) : Dataset :=
  {| lat := lat_coord lats;
     lon := vector "lon" [Fin 0];
     gw := vector "lat" (map (fun _ => Fin 1) lats);
     FLNT := full ["time"; "lat"; "lon"]%string
                  [1%nat; List.length lats; 1%nat] (Fin 0) |}.


(** The latitudes -90, -88, ..., 88, 90. *)
Definition grid_2deg : list R :=
  map (fun k => 2 * INR k - 90) (seq 0 91).

(** ** The other cells of the notebook

    Besides the weighting cells the notebook selects slices of arrays
    (by name with [isel], by position with brackets), negates and
    subtracts fields, transposes one, indexes and slices a list of month
    names, looks variables up in the dataset and renames one of them. *)

Definition xopp (x : xfloat) : xfloat :=
  match x with
  | Fin r => Fin (- r)
  | PInf => NInf
  | NInf => PInf
  | NaN => NaN
  end.


(** *** Python exceptions and sequences *)

Inductive pyerror : Type :=
| IndexError
| KeyError
| AttributeError
| Xr (e : exn).

Inductive py (A : Type) : Type :=
| Return (a : A)
| Except (e : pyerror).
Arguments Return {A} a.
Arguments Except {A} e.

Definition py_bind {A B : Type} (r : py A) (k : A -> py B) : py B :=
  match r with
  | Return a => k a
  | Except e => Except e
  end.

Notation "x <~ r ;; k" := (py_bind r (fun x => k))
  (at level 61, r at next level, right associativity).


(** The position an integer index denotes in a sequence of length [n]:
    a negative index counts from the end; [None] when out of range. *)
Definition py_position (n : nat) (i : Z) : option nat :=
  let j := if (i <? 0)%Z then (i + Z.of_nat n)%Z else i in
  if ((0 <=? j) && (j <? Z.of_nat n))%Z then Some (Z.to_nat j) else None.

(** l[i] *)
Definition py_getitem {A : Type} (l : list A) (i : Z) : py A :=
  match py_position (List.length l) i with
  | Some j =>
      match nth_error l j with
      | Some x => Return x
      | None => Except IndexError
      end
  | None => Except IndexError
  end.

(** l[i:] : the start is counted from the end when negative and clipped
    to the bounds of the list. *)
Definition py_slice_from {A : Type} (l : list A) (i : Z) : list A :=
  let n := Z.of_nat (List.length l) in
  let start := if (i <? 0)%Z then (i + n)%Z else i in
  skipn (Z.to_nat (Z.min (Z.max 0 start) n)) l.

(** *** More array operations *)

(** -a *)
Definition neg (a : DataArray) : DataArray := apply_ufunc xopp a.




Fixpoint remove_at {A : Type} (p : nat) (l : list A) : list A :=
  match p, l with
  | _, [] => []
  | O, _ :: t => t
  | S p', x :: t => x :: remove_at p' t
  end.

Fixpoint insert_at {A : Type} (p : nat) (x : A) (l : list A) : list A :=
  match p, l with
  | O, _ => x :: l
  | S _, [] => [x]
  | S p', y :: t => y :: insert_at p' x t
  end.

(** Selecting position [k] along the axis at position [p] removes that
    axis. *)
Definition isel_axis (p : nat) (k : Z) (a : DataArray) : py DataArray :=
  match py_position (nth p (sizes a) 0%nat) k with
  | Some j =>
      Return {| dims := remove_at p (dims a);
                sizes := remove_at p (sizes a);
                values := fun idx => values a (insert_at p j idx) |}
  | None => Except IndexError
  end.

(** a.isel(d=k) : the dimension must exist. *)
Definition isel (d : string) (k : Z) (a : DataArray) : py DataArray :=
  if mem d (dims a) then isel_axis (index_of d (dims a)) k a
  else Except (Xr ValueError).

(** One entry of a bracket key: an integer or [:]. *)
Inductive indexer : Type :=
| Int (k : Z)
| All.

Fixpoint isel_each (ixs : list (string * indexer)) (a : DataArray)
  : py DataArray :=
  match ixs with
  | [] => Return a
  | (_, All) :: rest => isel_each rest a
  | (d, Int k) :: rest => b <~ isel d k a ;; isel_each rest b
  end.

(** a[key] : the entries of the key are paired with the dimensions in
    order (missing trailing entries stand for [:]) and applied by name;
    a key longer than the number of dimensions is an error. *)
Definition getitem (key : list indexer) (a : DataArray) : py DataArray :=
  if (List.length (dims a) <? List.length key)%nat then Except IndexError
  else isel_each (combine (dims a) key) a.

(** *** The ocean heat flux cells *)

(** -som_input.qdp.mean(dim='time') *)
Definition annual_mean_flux_out (qdp : DataArray) : result DataArray :=
  m <- mean ["time"%string] qdp ;;
  Ok (neg m).

(** som_input.qdp.isel(time=0) *)
Definition first_month (qdp : DataArray) : py DataArray :=
  isel "time" 0 qdp.

(** som_input.qdp[0,:,:] *)
Definition first_month_by_position (qdp : DataArray) : py DataArray :=
  getitem [Int 0; All; All] qdp.

Definition months : list string :=
  ["Jan"; "Feb"; "Mar"; "Apr"; "May"; "Jun"; "Jul"; "Aug";
   "Sep"; "Oct"; "Nov"; "Dec"]%string.

(** months[-2:] *)
Definition last_two_months : list string := py_slice_from months (-2).

(** [sh(month)] : what the function hands to the plotting calls, in the
    order it evaluates them: the field it contours,
    -som_input.qdp.isel(time=month), and the text it writes,
    months[month]. *)
Definition sh (qdp : DataArray) (month : Z) : py (DataArray * string) :=
  slice <~ isel "time" month qdp ;;
  label <~ py_getitem months month ;;
  Return (neg slice, label).

(** The positions of an integer slider (min, max, step) with a positive
    step, as in interact(sh, month=(0,11,1)). *)
Definition slider_positions (lo hi step : Z) : list Z :=
  map (fun i => (lo + Z.of_nat i * step)%Z)
      (seq 0 (Z.to_nat ((hi - lo) / step + 1))).

(** atm_control.Ta[0,:,70,115] *)
Definition column_profile (Ta : DataArray) : py DataArray :=
  getitem [Int 0; All; Int 70; Int 115] Ta.

(** *** The dataset as a mapping from names to variables *)

Definition Variables : Type := list (string * DataArray).

Fixpoint lookup (k : string) (ds : Variables) : option DataArray :=
  match ds with
  | [] => None
  | (k', v) :: rest => if String.eqb k k' then Some v else lookup k rest
  end.

(** k in ds *)
Definition contains (k : string) (ds : Variables) : bool :=
  match lookup k ds with
  | Some _ => true
  | None => false
  end.

(** ds[k], for the name of a variable or a name the dataset does not
    know: the index the library makes up for a dimension without a
    coordinate variable is not modelled. *)
Definition ds_getitem (ds : Variables) (k : string) : py DataArray :=
  match lookup k ds with
  | Some v => Return v
  | None => Except KeyError
  end.

(** ds.k, for a name the Dataset class does not define itself (lat, lon,
    gw, FLNT, FLNTC and Ta are such names; T, the transpose, is not). *)
Definition ds_getattr (ds : Variables) (k : string) : py DataArray :=
  match lookup k ds with
  | Some v => Return v
  | None => Except AttributeError
  end.

(** name_dict.get(d, d) for the one-entry dictionary {old: new}. *)
Definition renamed (old new d : string) : string :=
  if String.eqb d old then new else d.

Definition rename_variable (old new : string) (kv : string * DataArray)
  : string * DataArray :=
  (renamed old new (fst kv),
   {| dims := map (renamed old new) (dims (snd kv));
      sizes := sizes (snd kv);
      values := values (snd kv) |}).

(** d in ds.dims *)
Definition has_dimension (d : string) (ds : Variables) : bool :=
  existsb (fun kv => mem d (dims (snd kv))) ds.

(** ds.rename({old: new}) : the old name must be a variable or a
    dimension of the dataset and the new name must not be a variable of
    it; every variable keeps its place, the names of variables and
    dimensions are mapped through the dictionary.  The library's final
    pass over the sizes of equally named dimensions is not modelled: it
    changes nothing when no dimension is called [new]. *)
Definition rename (old new : string) (ds : Variables) : py Variables :=
  if negb (contains old ds) && negb (has_dimension old ds)
  then Except (Xr ValueError)
  else if contains new ds && negb (String.eqb old new)
  then Except (Xr ValueError)
  else Return (map (rename_variable old new) ds).

(** atm_control.rename({'T': 'Ta'}, inplace=True)
    atm_control.Ta
    The first statement changes the dataset in place, or raises and
    leaves it as it was; the second shows the variable. *)
Definition cell_rename (ds : Variables)
  : Variables * py DataArray :=
  match rename "T" "Ta" ds with
  | Return ds' => (ds', ds_getattr ds' "Ta")
  | Except e => (ds, Except e)
  end.


(** The variables the weighting cells read. *)
Definition weighting_inputs (ds : Variables) : py Dataset :=
  v_lat <~ ds_getattr ds "lat" ;;
  v_lon <~ ds_getattr ds "lon" ;;
  v_gw <~ ds_getattr ds "gw" ;;
  v_FLNT <~ ds_getattr ds "FLNT" ;;
  Return {| lat := v_lat; lon := v_lon; gw := v_gw; FLNT := v_FLNT |}.

(** [v'] holds the data of [v] under the names of the dictionary. *)
Definition renamed_array (old new : string) (v v' : DataArray) : Prop :=
  dims v' = map (renamed old new) (dims v) /\
  sizes v' = sizes v /\
  values v' = values v.

(** No variable of the dataset has a dimension called [d]. *)
Definition no_dimension (d : string) (ds : Variables) : Prop :=
  forall k v, In (k, v) ds -> ~ In d (dims v).

(** * Properties of the model *)

(** ** Signs, division and special values *)


Lemma Rsign_neq0 (b : R) : b <> 0 -> Rsign b <> Eq.
Proof.
  unfold Rsign. destruct (total_order_T b 0) as [[H | H] | H]; congruence.
Qed.



Lemma xdiv_Fin (a b : R) : b <> 0 -> xdiv (Fin a) (Fin b) = Fin (a / b).
Proof.
  intros Hb. unfold xdiv. apply Rsign_neq0 in Hb.
  destruct (Rsign b); congruence.
Qed.





Lemma xdeg2rad_Fin (x : R) : xdeg2rad (Fin x) = Fin (x * (PI / 180)).
Proof. reflexivity. Qed.

Lemma xcos_deg2rad_Fin (x : R) : xcos (xdeg2rad (Fin x)) = Fin (cosd x).
Proof. reflexivity. Qed.



Lemma finite_to_R (x : xfloat) : is_finite x -> x = Fin (to_R x).
Proof. intros [r ->]. reflexivity. Qed.





(** ** Sums of real numbers *)

Lemma Rsum_app (l1 l2 : list R) : Rsum (l1 ++ l2) = Rsum l1 + Rsum l2.
Proof.
  induction l1 as [| x l1 IH]; simpl.
  - lra.
  - rewrite IH. lra.
Qed.

Lemma Rsum_map_scal (A : Type) (f : A -> R) (c : R) (l : list A) :
  Rsum (map (fun x => f x * c) l) = Rsum (map f l) * c.
Proof.
  induction l as [| x l IH]; simpl.
  - lra.
  - rewrite IH. lra.
Qed.

Lemma Rsum_map_scal_l (A : Type) (f : A -> R) (c : R) (l : list A) :
  Rsum (map (fun x => c * f x) l) = c * Rsum (map f l).
Proof.
  induction l as [| x l IH]; simpl.
  - lra.
  - rewrite IH. lra.
Qed.


Lemma Rsum_map_ext (A : Type) (f g : A -> R) (l : list A) :
  (forall x, In x l -> f x = g x) -> Rsum (map f l) = Rsum (map g l).
Proof.
  intros H. induction l as [| x l IH]; simpl.
  - reflexivity.
  - rewrite H by (left; reflexivity). rewrite IH; [reflexivity |].
    intros y Hy. apply H. right. exact Hy.
Qed.





Lemma INR_length_neq0 (A : Type) (l : list A) : l <> [] -> INR (List.length l) <> 0.
Proof.
  intros H. apply not_0_INR. destruct l; [congruence | discriminate].
Qed.

Lemma length_neq0 (A : Type) (l : list A) : l <> [] -> List.length l <> 0%nat.
Proof. destruct l; [congruence | discriminate]. Qed.

Lemma Rmean_neq0 (l : list R) : l <> [] -> Rsum l <> 0 -> Rmean l <> 0.
Proof.
  intros Hne Hs. unfold Rmean, Rdiv.
  apply Rmult_integral_contrapositive_currified; [exact Hs |].
  apply Rinv_neq_0_compat, not_0_INR.
  destruct l; [congruence | discriminate].
Qed.




(** ** Lists of entries *)

Lemma map_nth_seq (A : Type) (l : list A) (d : A) :
  map (fun i => nth i l d) (seq 0 (List.length l)) = l.
Proof.
  induction l as [| x l IH]; simpl.
  - reflexivity.
  - f_equal. rewrite <- seq_shift, map_map. exact IH.
Qed.

Lemma map_nth_seq_fun (A B : Type) (h : A -> B) (l : list A) (d : A) :
  map (fun i => h (nth i l d)) (seq 0 (List.length l)) = map h l.
Proof.
  rewrite <- (map_map (fun i => nth i l d) h), map_nth_seq. reflexivity.
Qed.

Lemma nth_map_Fin (lats : list R) (i : nat) :
  (i < List.length lats)%nat ->
  nth i (map Fin lats) NaN = Fin (nth i lats 0).
Proof.
  intros Hi. rewrite (nth_indep _ NaN (Fin 0)) by (now rewrite length_map).
  apply (map_nth Fin).
Qed.

Lemma flat_map_singleton (A B : Type) (f : A -> B) (l : list A) :
  flat_map (fun x => [f x]) l = map f l.
Proof.
  induction l as [| x l IH]; simpl; [reflexivity | now rewrite IH].
Qed.




(** ** The NaN-skipping mean *)

Lemma xsum_map_Fin (rs : list R) : xsum (map Fin rs) = Fin (Rsum rs).
Proof.
  induction rs as [| r rs IH].
  - reflexivity.
  - change (xsum (map Fin (r :: rs))) with (xadd (Fin r) (xsum (map Fin rs))).
    rewrite IH. reflexivity.
Qed.

Lemma nan_to_zero_map_Fin (rs : list R) :
  map nan_to_zero (map Fin rs) = map Fin rs.
Proof. rewrite map_map. reflexivity. Qed.

Lemma count_valid_map_Fin (rs : list R) :
  count_valid (map Fin rs) = List.length rs.
Proof.
  unfold count_valid. induction rs as [| r rs IH]; simpl.
  - reflexivity.
  - rewrite IH. reflexivity.
Qed.

Lemma nanmean_map_Fin (rs : list R) :
  rs <> [] -> nanmean (map Fin rs) = Fin (Rmean rs).
Proof.
  intros Hne. unfold nanmean, Rmean.
  rewrite nan_to_zero_map_Fin, xsum_map_Fin, count_valid_map_Fin.
  apply xdiv_Fin. destruct rs as [| r rs]; [congruence |].
  apply not_0_INR. simpl. discriminate.
Qed.





Lemma gather_1 (n : nat) (f : list nat -> xfloat) (out : list nat) :
  gather [true] [n] f out = map (fun i => f [i]) (seq 0 n).
Proof. simpl. apply flat_map_singleton. Qed.



Lemma nanmean_1 (n : nat) (f : list nat -> xfloat) (g : nat -> R) (out : list nat) :
  n <> 0%nat ->
  (forall i, (i < n)%nat -> f [i] = Fin (g i)) ->
  nanmean (gather [true] [n] f out) =
  Fin (Rsum (map g (seq 0 n)) / INR n).
Proof.
  intros Hn Hf. rewrite gather_1.
  rewrite (map_ext_in _ (fun i => Fin (g i))).
  2:{ intros i Hi. apply in_seq in Hi. apply Hf. lia. }
  rewrite <- (map_map g Fin), nanmean_map_Fin.
  - unfold Rmean. now rewrite length_map, length_seq.
  - destruct n; [congruence | discriminate].
Qed.



(** ** Means and products on the array layouts of the notebook *)

Lemma returns_scalar_eq (r : result DataArray) (x y : xfloat) :
  x = y -> returns_scalar r x -> returns_scalar r y.
Proof. intros ->. exact (fun H => H). Qed.


Lemma in_range_1 (n i : nat) : (i < n)%nat -> in_range [n] [i].
Proof. intros. repeat constructor; assumption. Qed.




Ltac eval_names :=
  cbn [forallb filter app map mem existsb negb orb andb nodupb keep
       index_of nth select hd tl String.eqb Ascii.eqb Bool.eqb].

Ltac give_array :=
  eexists; split; [reflexivity |];
  split; [reflexivity | split; [reflexivity |]].

Lemma mean_lat_1d (a : DataArray) (n : nat) :
  dims a = ["lat"%string] -> sizes a = [n] ->
  returns_scalar (mean ["lat"%string] a)
                 (nanmean (map (fun i => values a [i]) (seq 0 n))).
Proof.
  intros Hd Hs. unfold mean. rewrite Hd, Hs. eval_names. give_array.
  cbn [values]. now rewrite gather_1.
Qed.



(** Names of non-spatial dimensions such as 'time' or 'lev'. *)
Lemma eqb_neq_sym (d e : string) : d <> e -> String.eqb e d = false.
Proof. intros H. apply String.eqb_neq. congruence. Qed.




(** A requested dimension the array lacks is an error. *)
Lemma mean_missing_dim (dim : list string) (a : DataArray) :
  forallb (fun d => mem d (dims a)) dim = false ->
  mean dim a = Raise ValueError.
Proof. intros H. unfold mean. now rewrite H. Qed.

Section Products.

Variable w : DataArray.
Variable n : nat.
Hypothesis Hwd : dims w = ["lat"%string].
Hypothesis Hws : sizes w = [n].

(** A 0-d array times the weight: broadcasting adds the latitude axis. *)
Lemma multiply_0d (a : DataArray) :
  dims a = [] -> sizes a = [] ->
  exists p, multiply a w = Ok p /\
    dims p = ["lat"%string] /\ sizes p = [n] /\
    forall i, values p [i] = xmul (values a []) (values w [i]).
Proof.
  intros Hd Hs. unfold multiply, broadcast, size_of.
  rewrite Hwd, Hws, Hd, Hs. eval_names. give_array. reflexivity.
Qed.

Lemma multiply_1d (a : DataArray) :
  dims a = ["lat"%string] -> sizes a = [n] ->
  exists p, multiply a w = Ok p /\
    dims p = ["lat"%string] /\ sizes p = [n] /\
    forall i, values p [i] = xmul (values a [i]) (values w [i]).
Proof.
  intros Hd Hs. unfold multiply, broadcast, size_of.
  rewrite Hwd, Hws, Hd, Hs. eval_names. rewrite Nat.eqb_refl. eval_names.
  give_array. reflexivity.
Qed.

Lemma multiply_2d (a : DataArray) (m : nat) :
  dims a = ["lat"; "lon"]%string -> sizes a = [n; m] ->
  exists p, multiply a w = Ok p /\
    dims p = ["lat"; "lon"]%string /\ sizes p = [n; m] /\
    forall i j, values p [i; j] = xmul (values a [i; j]) (values w [i]).
Proof.
  intros Hd Hs. unfold multiply, broadcast, size_of.
  rewrite Hwd, Hws, Hd, Hs. eval_names. rewrite Nat.eqb_refl. eval_names.
  give_array. reflexivity.
Qed.


End Products.

(** ** Cosines of latitudes *)




Lemma cosd_90 : cosd 90 = 0.
Proof.
  unfold cosd. replace (90 * (PI / 180)) with (PI / 2) by field. apply cos_PI2.
Qed.

Lemma cosd_opp (x : R) : cosd (- x) = cosd x.
Proof.
  unfold cosd. replace (- x * (PI / 180)) with (- (x * (PI / 180))) by ring.
  apply cos_neg.
Qed.







(** ** The cosine weight on a grid of finite latitudes *)

Section Weights.

Variable atm_control : Dataset.
Variable lats : list R.
Hypothesis Hlat : lat atm_control = lat_coord lats.

Lemma coslat_dims : dims (coslat atm_control) = ["lat"%string].
Proof. unfold coslat. simpl. rewrite Hlat. reflexivity. Qed.

Lemma coslat_sizes : sizes (coslat atm_control) = [List.length lats].
Proof.
  unfold coslat. simpl. rewrite Hlat. simpl. now rewrite length_map.
Qed.

Lemma coslat_values (i : nat) (rest : list nat) :
  (i < List.length lats)%nat ->
  values (coslat atm_control) (i :: rest) = Fin (cosd (nth i lats 0)).
Proof.
  intros Hi. unfold coslat. simpl. rewrite Hlat. simpl.
  rewrite nth_map_Fin by exact Hi. reflexivity.
Qed.

Lemma coslat_entries :
  map (fun i => values (coslat atm_control) [i]) (seq 0 (List.length lats)) =
  map Fin (map cosd lats).
Proof.
  rewrite <- (map_nth_seq R lats 0) at 2. rewrite !map_map.
  apply map_ext_in. intros i Hi. apply in_seq in Hi.
  apply coslat_values. lia.
Qed.

(** The divisor of the normalization. *)
Lemma coslat_mean :
  returns_scalar (mean ["lat"%string] (coslat atm_control))
                 (nanmean (map Fin (map cosd lats))).
Proof.
  rewrite <- coslat_entries.
  apply mean_lat_1d; [apply coslat_dims | apply coslat_sizes].
Qed.

Lemma weight_factor_raw :
  exists w, weight_factor atm_control = Ok w /\
    dims w = ["lat"%string] /\ sizes w = [List.length lats] /\
    forall i rest, (i < List.length lats)%nat ->
      values w (i :: rest) =
      xdiv (Fin (cosd (nth i lats 0))) (nanmean (map Fin (map cosd lats))).
Proof.
  destruct coslat_mean as [m [Hm [Hd [Hs Hv]]]].
  unfold weight_factor. rewrite Hm. cbn [bind].
  unfold divide, broadcast. rewrite Hd, coslat_dims, coslat_sizes.
  eval_names. give_array.
  intros i rest Hi. cbn [values]. eval_names.
  rewrite Hv, coslat_values by exact Hi. reflexivity.
Qed.

Lemma weight_factor_spec :
  lats <> [] -> Rsum (map cosd lats) <> 0 ->
  exists w, weight_factor atm_control = Ok w /\
    dims w = ["lat"%string] /\ sizes w = [List.length lats] /\
    forall i rest, (i < List.length lats)%nat ->
      values w (i :: rest) = Fin (w_ref lats i).
Proof.
  intros Hne Hsum.
  destruct weight_factor_raw as [w [Hw [Hwd [Hws Hwv]]]].
  exists w. repeat split; try assumption.
  intros i rest Hi. rewrite Hwv by exact Hi.
  assert (Hne' : map cosd lats <> []) by (destruct lats; [congruence | discriminate]).
  rewrite nanmean_map_Fin by exact Hne'.
  apply xdiv_Fin, Rmean_neq0; assumption.
Qed.

End Weights.






(** ** The weighted average of finite fields *)

Section Fields.

Variable atm_control : Dataset.
Variable lats : list R.
Hypothesis Hlat : lat atm_control = lat_coord lats.
Hypothesis Hne : lats <> [].
Hypothesis Hsum : Rsum (map cosd lats) <> 0.


(** A field along latitude only. *)
Lemma global_average_1d (field : DataArray) :
  dims field = ["lat"%string] -> sizes field = [List.length lats] -> finite_array field ->
  returns_scalar (global_average atm_control ["lat"%string] field)
    (Fin (Rsum (map (fun i => to_R (values field [i]) * w_ref lats i) (seq 0 (List.length lats)))
          / INR (List.length lats))).
Proof.
  intros Hd Hs Hfin. unfold global_average, weighted_mean.
  destruct (weight_factor_spec atm_control lats Hlat Hne Hsum)
    as [w [Hw [Hwd [Hws Hwv]]]].
  rewrite Hw. cbn [bind].
  destruct (multiply_1d w (List.length lats) Hwd Hws field Hd Hs) as [p [Hp [Hpd [Hps Hpv]]]].
  rewrite Hp. cbn [bind].
  eapply returns_scalar_eq; [| exact (mean_lat_1d p (List.length lats) Hpd Hps)].
  rewrite <- (gather_1 (List.length lats) (values p) []).
  apply nanmean_1; [exact (length_neq0 R lats Hne) |].
  intros i Hi. rewrite Hpv, Hwv by exact Hi.
  rewrite (finite_to_R (values field [i])) at 1; [reflexivity |].
  apply Hfin. rewrite Hs. now apply in_range_1.
Qed.




End Fields.


(** ** A single latitude row *)

Section SingleRow.

Variable atm_control : Dataset.
Variable l : R.
Hypothesis Hlat : lat atm_control = lat_coord [l].
Hypothesis Hcos : cosd l <> 0.



End SingleRow.

(** ** The grid [0, 180] *)




(** ** Finite averages *)


(** ** The reference value on finite fields *)



(** ** The sum of cosines along an arithmetic progression *)

Lemma cos_progression (x0 th : R) (N : nat) :
  2 * sin (th / 2) * Rsum (map (fun k => cos (x0 + INR k * th)) (seq 0 N)) =
  sin (x0 + INR N * th - th / 2) - sin (x0 - th / 2).
Proof.
  induction N as [| N IH].
  - simpl. rewrite Rmult_0_l, Rplus_0_r. ring.
  - rewrite seq_S, map_app, Rsum_app, Rmult_plus_distr_l, IH.
    cbn [map Rsum fold_right Nat.add]. rewrite S_INR.
    replace (x0 + (INR N + 1) * th - th / 2)
      with ((x0 + INR N * th) + th / 2) by field.
    replace (x0 + INR N * th - th / 2)
      with ((x0 + INR N * th) - th / 2) by field.
    rewrite sin_plus, sin_minus, sin_minus. ring.
Qed.

Lemma PI_bounds : 3.1415 < PI < 3.1422.
Proof.
  pose proof (PI_2_3_7_ineq 1) as [Hlo Hhi].
  unfold sum_f_R0, tg_alt, PI_2_3_7_tg, Ratan_seq in Hlo, Hhi.
  simpl in Hlo, Hhi.
  split; lra.
Qed.

Lemma one_degree_bounds : 0.017452 < one_degree < 0.017457.
Proof. unfold one_degree. pose proof PI_bounds. lra. Qed.

Lemma sin_one_degree_bounds : 0.01745 < sin one_degree < 0.01746.
Proof.
  pose proof one_degree_bounds as [Hlo Hhi]. pose proof PI_bounds as [Hp _].
  split.
  - assert (H : sin_approx one_degree 1 <= sin one_degree).
    { apply (sin_bound one_degree 0); lra. }
    unfold sin_approx, sin_term in H. simpl in H.
    assert (Hsq : one_degree * one_degree < 0.000305) by nra.
    assert (Hcube : one_degree * (one_degree * one_degree) < 0.00000533) by nra.
    nra.
  - pose proof (sin_lt_x one_degree). lra.
Qed.

Lemma cos_one_degree_bounds : 0.9998 < cos one_degree <= 1.
Proof.
  pose proof one_degree_bounds as [Hlo Hhi]. pose proof PI_bounds as [Hp _].
  split.
  - assert (H : cos_approx one_degree 1 <= cos one_degree).
    { apply (cos_bound one_degree 0); lra. }
    unfold cos_approx, cos_term in H. simpl in H. nra.
  - apply COS_bound.
Qed.

Lemma sin_one_degree_pos : 0 < sin one_degree.
Proof. pose proof sin_one_degree_bounds. lra. Qed.

Lemma sin_two_degrees_pos : 0 < sin (PI / 90).
Proof.
  pose proof PI_bounds. apply sin_gt_0; lra.
Qed.

(** ** The grid from -90 to 90 degrees in steps of 2 degrees *)

Lemma grid_2deg_length : List.length grid_2deg = 91%nat.
Proof. unfold grid_2deg. now rewrite length_map, length_seq. Qed.

Lemma INR_91 : INR 91 = 91.
Proof. rewrite INR_IZR_INZ. reflexivity. Qed.

Lemma grid_2deg_nonempty : grid_2deg <> [].
Proof.
  intros H. apply (f_equal (@List.length R)) in H.
  rewrite grid_2deg_length in H. discriminate.
Qed.

(** The cosines of the grid add up to cot(1 degree). *)
Lemma grid_2deg_cos_sum :
  Rsum (map cosd grid_2deg) = cos one_degree / sin one_degree.
Proof.
  pose proof sin_one_degree_pos as Hs.
  unfold grid_2deg. rewrite map_map.
  rewrite (Rsum_map_ext nat _ (fun k => cos (- (PI / 2) + INR k * (PI / 90)))).
  2:{ intros k _. unfold cosd. f_equal. field. }
  pose proof (cos_progression (- (PI / 2)) (PI / 90) 91) as H.
  rewrite INR_91 in H.
  replace (PI / 90 / 2) with one_degree in H by (unfold one_degree; field).
  replace (- (PI / 2) + 91 * (PI / 90) - one_degree)
    with (PI / 2 + one_degree) in H by (unfold one_degree; field).
  replace (- (PI / 2) - one_degree)
    with (- (PI / 2 + one_degree)) in H by ring.
  rewrite sin_neg, <- cos_sin in H.
  apply (Rmult_eq_reg_l (2 * sin one_degree)); [| lra].
  rewrite H. field. lra.
Qed.

Lemma grid_2deg_cos_sum_pos : 0 < Rsum (map cosd grid_2deg).
Proof.
  rewrite grid_2deg_cos_sum.
  pose proof sin_one_degree_pos. pose proof cos_one_degree_bounds.
  apply Rdiv_lt_0_compat; lra.
Qed.

Lemma grid_2deg_cos2x_sum :
  Rsum (map (fun l => cos (2 * (l * (PI / 180)))) grid_2deg) = -1.
Proof.
  pose proof sin_two_degrees_pos as Hs.
  unfold grid_2deg. rewrite map_map.
  rewrite (Rsum_map_ext nat _ (fun k => cos (- PI + INR k * (PI / 45)))).
  2:{ intros k _. f_equal. field. }
  pose proof (cos_progression (- PI) (PI / 45) 91) as H.
  rewrite INR_91 in H.
  replace (PI / 45 / 2) with (PI / 90) in H by field.
  replace (- PI + 91 * (PI / 45) - PI / 90) with (PI / 90 + PI) in H by field.
  replace (- PI - PI / 90) with (- (PI / 90 + PI)) in H by ring.
  rewrite sin_neg, neg_sin in H.
  apply (Rmult_eq_reg_l (2 * sin (PI / 90))); [| lra].
  rewrite H. ring.
Qed.

(** The squared cosines of the grid add up to 45. *)
Lemma grid_2deg_cos_sq_sum :
  Rsum (map (fun l => cosd l * cosd l) grid_2deg) = 45.
Proof.
  rewrite (Rsum_map_ext R _
    (fun l => / 2 * (1 + cos (2 * (l * (PI / 180)))))).
  2:{ intros l _. unfold cosd. rewrite cos_2a_cos. field. }
  rewrite Rsum_map_scal_l.
  assert (Hsplit : forall l : list R,
    Rsum (map (fun x => 1 + cos (2 * (x * (PI / 180)))) l) =
    INR (List.length l) + Rsum (map (fun x => cos (2 * (x * (PI / 180)))) l)).
  { induction l as [| x l IH].
    - simpl. lra.
    - cbn [map Rsum fold_right]. fold (Rsum (map (fun x => 1 + cos (2 * (x * (PI / 180)))) l)).
      fold (Rsum (map (fun x => cos (2 * (x * (PI / 180)))) l)).
      rewrite IH. change (List.length (x :: l)) with (S (List.length l)).
      rewrite S_INR. lra. }
  rewrite Hsplit, grid_2deg_cos2x_sum, grid_2deg_length, INR_91. lra.
Qed.

Section CosineField.

Variable atm_control : Dataset.
Variable lats : list R.
Hypothesis Hlat : lat atm_control = lat_coord lats.
Hypothesis Hne : lats <> [].
Hypothesis Hsum : Rsum (map cosd lats) <> 0.

Lemma coslat_finite : finite_array (coslat atm_control).
Proof.
  intros idx Hidx. rewrite (coslat_sizes atm_control lats Hlat) in Hidx.
  inversion Hidx as [| i n0 idx1 sz1 Hi H1]; subst.
  exists (cosd (nth i lats 0)). now apply coslat_values.
Qed.

(** The unweighted mean of the field cos(latitude). *)
Lemma coslat_unweighted_mean :
  returns_scalar (mean ["lat"%string] (coslat atm_control))
                 (Fin (Rsum (map cosd lats) / INR (List.length lats))).
Proof.
  eapply returns_scalar_eq; [| exact (coslat_mean atm_control lats Hlat)].
  rewrite nanmean_map_Fin.
  - unfold Rmean. now rewrite length_map.
  - intros H. apply map_eq_nil in H. contradiction.
Qed.

(** Its weighted mean is the ratio of the sum of squared cosines to the
    sum of cosines. *)
Lemma coslat_weighted_mean :
  returns_scalar
    (global_average atm_control ["lat"%string] (coslat atm_control))
    (Fin (Rsum (map (fun l => cosd l * cosd l) lats) / Rsum (map cosd lats))).
Proof.
  eapply returns_scalar_eq;
    [| exact (global_average_1d atm_control lats Hlat Hne Hsum
                (coslat atm_control) (coslat_dims atm_control lats Hlat)
                (coslat_sizes atm_control lats Hlat) coslat_finite)].
  f_equal.
  rewrite (Rsum_map_ext nat _
    (fun i => (fun l => cosd l * cosd l) (nth i lats 0)
              * / Rmean (map cosd lats))).
  2:{ intros i Hi. apply in_seq in Hi.
      rewrite (coslat_values atm_control lats Hlat) by lia.
      unfold w_ref, to_R. field.
      apply Rmean_neq0; [| exact Hsum].
      destruct lats; [congruence | discriminate]. }
  rewrite Rsum_map_scal, (map_nth_seq_fun R R (fun l => cosd l * cosd l)).
  unfold Rmean. rewrite length_map. field.
  split; [exact Hsum | now apply INR_length_neq0].
Qed.

End CosineField.

Lemma cosine_field_unweighted :
  returns_scalar (mean ["lat"%string] (coslat (dataset_on grid_2deg)))
                 (Fin (cos one_degree / sin one_degree / 91)).
Proof.
  eapply returns_scalar_eq;
    [| exact (coslat_unweighted_mean (dataset_on grid_2deg) grid_2deg
                eq_refl grid_2deg_nonempty)].
  now rewrite grid_2deg_cos_sum, grid_2deg_length, INR_91.
Qed.

Lemma cosine_field_weighted :
  returns_scalar
    (global_average (dataset_on grid_2deg) ["lat"%string]
       (coslat (dataset_on grid_2deg)))
    (Fin (45 * tan one_degree)).
Proof.
  pose proof grid_2deg_cos_sum_pos as Hpos.
  eapply returns_scalar_eq;
    [| exact (coslat_weighted_mean (dataset_on grid_2deg) grid_2deg
                eq_refl grid_2deg_nonempty ltac:(lra))].
  rewrite grid_2deg_cos_sq_sum, grid_2deg_cos_sum. f_equal.
  pose proof sin_one_degree_pos. pose proof cos_one_degree_bounds.
  unfold tan. field. split; lra.
Qed.

Lemma unweighted_value_bounds :
  0.629 < cos one_degree / sin one_degree / 91 < 0.630.
Proof.
  pose proof sin_one_degree_bounds as [Hs1 Hs2].
  pose proof cos_one_degree_bounds as [Hc1 Hc2].
  set (u := cos one_degree / sin one_degree / 91).
  assert (Hu : u * (91 * sin one_degree) = cos one_degree).
  { unfold u. field. lra. }
  split; nra.
Qed.

Lemma weighted_value_bounds : 0.785 < 45 * tan one_degree < 0.786.
Proof.
  pose proof sin_one_degree_bounds as [Hs1 Hs2].
  pose proof cos_one_degree_bounds as [Hc1 Hc2].
  set (v := 45 * tan one_degree).
  assert (Hv : v * cos one_degree = 45 * sin one_degree).
  { unfold v, tan. field. lra. }
  split; nra.
Qed.

(** ** The cells and the namespace *)









(** * The properties the specification states *)

(** ** Uniform fields *)




(** ** The averager and its reference value *)





(** ** The divisor of the normalization *)




(** ** The field cos(latitude) *)

(** C4 (as amended): for the field cos(latitude) on the grid from -90 to
    90 degrees in steps of 2 degrees the two means differ; the unweighted
    mean is cot(1 degree)/91, about 0.63, and the cosine-weighted mean is
    45*tan(1 degree), about 0.785 (close to pi/4, not to 0). *)
Theorem cosine_field_means :
  exists u v,
    returns_scalar (mean ["lat"%string] (coslat (dataset_on grid_2deg))) (Fin u) /\
    returns_scalar
      (global_average (dataset_on grid_2deg) ["lat"%string]
         (coslat (dataset_on grid_2deg)))
      (Fin v) /\
    u = cos one_degree / sin one_degree / 91 /\
    v = 45 * tan one_degree /\
    0.629 < u < 0.630 /\
    0.785 < v < 0.786 /\
    u <> v.
Proof.
  exists (cos one_degree / sin one_degree / 91), (45 * tan one_degree).
  pose proof unweighted_value_bounds as Hu.
  pose proof weighted_value_bounds as Hv.
  repeat split; try reflexivity; try lra.
  - exact cosine_field_unweighted.
  - exact cosine_field_weighted.
Qed.

(** The weighted mean of that field is farther than 1e-6 from 0. *)
Lemma cosine_field_weighted_mean_not_zero :
  exists v,
    returns_scalar
      (global_average (dataset_on grid_2deg) ["lat"%string]
         (coslat (dataset_on grid_2deg)))
      (Fin v) /\
    ~ Rabs (v - 0) <= 1 / 1000000.
Proof.
  exists (45 * tan one_degree). split; [exact cosine_field_weighted |].
  pose proof weighted_value_bounds as Hv.
  rewrite Rminus_0_r, Rabs_pos_eq by lra. lra.
Qed.

(** ** One latitude row *)



(** ** Averaging an already reduced value *)



(** Requesting the three dimensions of the comparison cell on a 0-d value
    is an error: the product only has the latitude axis. *)
Lemma scalar_average_unknown_dims (atm_control : Dataset) (lats : list R)
  (r : DataArray) :
  lat atm_control = lat_coord lats ->
  dims r = [] -> sizes r = [] ->
  global_average atm_control ["time"; "lon"; "lat"]%string r = Raise ValueError.
Proof.
  intros Hlat Hd Hs. unfold global_average, weighted_mean.
  destruct (weight_factor_raw atm_control lats Hlat) as [w [Hw [Hwd [Hws _]]]].
  rewrite Hw. cbn [bind].
  destruct (multiply_0d w _ Hwd Hws r Hd Hs) as [p [Hp [Hpd _]]].
  rewrite Hp. cbn [bind]. apply mean_missing_dim. rewrite Hpd. reflexivity.
Qed.

(** ** The weights average to one *)



(** ** The cells leave their inputs alone *)



(** ** Non-negative weights and the range of the average *)




(** * Further properties of the notebook's code *)

(** ** Indexing and slicing Python sequences *)

Lemma py_position_nonneg (n : nat) (i : Z) :
  (0 <= i < Z.of_nat n)%Z -> py_position n i = Some (Z.to_nat i).
Proof.
  intros [H0 H1]. unfold py_position.
  destruct (Z.ltb_spec i 0) as [H | H]; [lia |].
  destruct (Z.leb_spec 0 i) as [_ | H']; [| lia].
  destruct (Z.ltb_spec i (Z.of_nat n)) as [_ | H']; [reflexivity | lia].
Qed.

Lemma py_position_neg (n : nat) (i : Z) :
  (- Z.of_nat n <= i < 0)%Z ->
  py_position n i = Some (Z.to_nat (i + Z.of_nat n)).
Proof.
  intros [H0 H1]. unfold py_position.
  destruct (Z.ltb_spec i 0) as [_ | H]; [| lia].
  destruct (Z.leb_spec 0 (i + Z.of_nat n)) as [_ | H']; [| lia].
  destruct (Z.ltb_spec (i + Z.of_nat n) (Z.of_nat n)) as [_ | H'];
    [reflexivity | lia].
Qed.

Lemma py_position_out (n : nat) (i : Z) :
  (i < - Z.of_nat n \/ Z.of_nat n <= i)%Z -> py_position n i = None.
Proof.
  intros H. unfold py_position.
  destruct (Z.ltb_spec i 0) as [Hi | Hi].
  - destruct (Z.leb_spec 0 (i + Z.of_nat n)) as [H' | _]; [lia | reflexivity].
  - destruct (Z.leb_spec 0 i) as [_ | H']; [| reflexivity].
    destruct (Z.ltb_spec i (Z.of_nat n)) as [H' | _]; [lia | reflexivity].
Qed.

Lemma py_position_lt (n : nat) (i : Z) (j : nat) :
  py_position n i = Some j -> (j < n)%nat.
Proof.
  unfold py_position.
  destruct (Z.ltb_spec i 0) as [Hi | Hi].
  - destruct (Z.leb_spec 0 (i + Z.of_nat n)) as [H0 | H0]; [| discriminate].
    destruct (Z.ltb_spec (i + Z.of_nat n) (Z.of_nat n)) as [H1 | H1];
      [| discriminate].
    intros H. injection H as <-. lia.
  - destruct (Z.leb_spec 0 i) as [H0 | H0]; [| discriminate].
    destruct (Z.ltb_spec i (Z.of_nat n)) as [H1 | H1]; [| discriminate].
    intros H. injection H as <-. lia.
Qed.


Lemma py_getitem_in_range (A : Type) (l : list A) (i : Z) :
  (- Z.of_nat (List.length l) <= i < Z.of_nat (List.length l))%Z ->
  exists j x, py_position (List.length l) i = Some j /\
              nth_error l j = Some x /\
              py_getitem l i = Return x.
Proof.
  intros H.
  assert (Hpos : exists j, py_position (List.length l) i = Some j).
  { destruct (Z.ltb_spec i 0) as [Hi | Hi].
    - eexists. apply py_position_neg. lia.
    - eexists. apply py_position_nonneg. lia. }
  destruct Hpos as [j Hj]. pose proof (py_position_lt _ _ _ Hj) as Hlt.
  destruct (nth_error l j) as [x |] eqn:Hx.
  - exists j, x. repeat split; try assumption.
    unfold py_getitem. now rewrite Hj, Hx.
  - apply nth_error_None in Hx. lia.
Qed.

Lemma py_getitem_out_of_range (A : Type) (l : list A) (i : Z) :
  (i < - Z.of_nat (List.length l) \/ Z.of_nat (List.length l) <= i)%Z ->
  py_getitem l i = Except IndexError.
Proof.
  intros H. unfold py_getitem. now rewrite py_position_out.
Qed.

Lemma py_slice_from_negative (A : Type) (l : list A) (k : nat) :
  (0 < k)%nat ->
  py_slice_from l (- Z.of_nat k) = skipn (List.length l - k) l.
Proof.
  intros Hk. unfold py_slice_from.
  destruct (Z.ltb_spec (- Z.of_nat k) 0) as [_ | H]; [| lia].
  f_equal. lia.
Qed.

(** X1: for every list and every k > 0 the slice l[-k:] never fails and is
    the suffix of l made of its last k elements (the whole list when it
    has fewer than k); on the month names, months[-2:] is Nov, Dec. *)
Theorem negative_slice_is_suffix (A : Type) (l : list A) (k : nat) :
  (0 < k)%nat ->
  firstn (List.length l - k) l ++ py_slice_from l (- Z.of_nat k) = l /\
  List.length (py_slice_from l (- Z.of_nat k)) = Nat.min k (List.length l).
Proof.
  intros Hk. rewrite py_slice_from_negative by exact Hk. split.
  - apply firstn_skipn.
  - rewrite length_skipn. lia.
Qed.

Lemma last_two_months_are_nov_dec :
  firstn 10 months ++ last_two_months = months /\
  List.length last_two_months = 2%nat /\
  last_two_months = ["Nov"; "Dec"]%string.
Proof.
  pose proof (negative_slice_is_suffix string months 2 ltac:(lia)) as [H1 H2].
  split; [exact H1 |]. split; [exact H2 | reflexivity].
Defined.

(** ** Selecting along a dimension *)

Lemma mem_In (d : string) (ds : list string) : mem d ds = true <-> In d ds.
Proof.
  unfold mem. rewrite existsb_exists. split.
  - intros [x [Hx Heq]]. apply String.eqb_eq in Heq. now subst.
  - intros H. exists d. split; [exact H | apply String.eqb_refl].
Qed.



Lemma remove_at_incl (A : Type) (p : nat) (l : list A) (x : A) :
  In x (remove_at p l) -> In x l.
Proof.
  revert p. induction l as [| y l IH]; intros p H.
  - destruct p; exact H.
  - destruct p as [| p]; cbn [remove_at] in H.
    + now right.
    + destruct H as [H | H]; [now left | right; now apply (IH p)].
Qed.

Lemma remove_at_index_of (d : string) (ds : list string) :
  NoDup ds -> ~ In d (remove_at (index_of d ds) ds).
Proof.
  induction 1 as [| x ds Hx Hnd IH]; [intros [] |].
  cbn [index_of]. destruct (String.eqb_spec d x) as [-> | Hne];
    cbn [remove_at].
  - exact Hx.
  - intros [H | H]; [congruence | now apply IH].
Qed.

Lemma remove_at_keeps (d e : string) (ds : list string) :
  In e ds -> e <> d -> In e (remove_at (index_of d ds) ds).
Proof.
  induction ds as [| x ds IH]; [intros [] |].
  intros H Hne. cbn [index_of].
  destruct (String.eqb_spec d x) as [-> | Hdx]; cbn [remove_at].
  - destruct H as [H | H]; [congruence | exact H].
  - destruct H as [H | H]; [now left | right; now apply IH].
Qed.

Lemma isel_unknown_dim (d : string) (k : Z) (a : DataArray) :
  mem d (dims a) = false -> isel d k a = Except (Xr ValueError).
Proof. intros H. unfold isel. now rewrite H. Qed.

Lemma isel_in_range (d : string) (k : Z) (a : DataArray) :
  mem d (dims a) = true ->
  (- Z.of_nat (size_of a d) <= k < Z.of_nat (size_of a d))%Z ->
  exists j,
    py_position (size_of a d) k = Some j /\
    isel d k a =
    Return {| dims := remove_at (index_of d (dims a)) (dims a);
              sizes := remove_at (index_of d (dims a)) (sizes a);
              values := fun idx =>
                values a (insert_at (index_of d (dims a)) j idx) |}.
Proof.
  intros Hmem Hk. unfold isel, isel_axis. rewrite Hmem. fold (size_of a d).
  destruct (Z.ltb_spec k 0) as [Hneg | Hpos].
  - eexists. split; [apply py_position_neg; lia |].
    rewrite py_position_neg by lia. reflexivity.
  - eexists. split; [apply py_position_nonneg; lia |].
    rewrite py_position_nonneg by lia. reflexivity.
Qed.

Lemma isel_out_of_range (d : string) (k : Z) (a : DataArray) :
  mem d (dims a) = true ->
  (k < - Z.of_nat (size_of a d) \/ Z.of_nat (size_of a d) <= k)%Z ->
  isel d k a = Except IndexError.
Proof.
  intros Hmem Hk. unfold isel, isel_axis. rewrite Hmem. fold (size_of a d).
  now rewrite py_position_out.
Qed.



Lemma isel_nonneg (d : string) (k : Z) (a : DataArray) :
  mem d (dims a) = true ->
  (0 <= k < Z.of_nat (size_of a d))%Z ->
  isel d k a =
  Return {| dims := remove_at (index_of d (dims a)) (dims a);
            sizes := remove_at (index_of d (dims a)) (sizes a);
            values := fun idx =>
              values a (insert_at (index_of d (dims a)) (Z.to_nat k) idx) |}.
Proof.
  intros Hmem Hk. unfold isel, isel_axis. rewrite Hmem. fold (size_of a d).
  now rewrite py_position_nonneg.
Qed.

Lemma py_bind_return (A : Type) (r : py A) : (x <~ r ;; Return x) = r.
Proof. now destruct r. Qed.

(** ** Brackets and names *)

Lemma getitem_first_axis (a : DataArray) (d : string) (rest : list string)
  (k : Z) :
  dims a = d :: rest -> (2 <= List.length rest)%nat ->
  getitem [Int k; All; All] a = isel d k a.
Proof.
  intros Hd Hlen. unfold getitem. rewrite Hd.
  destruct rest as [| d1 [| d2 rest]]; try (simpl in Hlen; lia).
  cbn [List.length Nat.ltb Nat.leb combine isel_each].
  rewrite combine_nil. apply py_bind_return.
Qed.

Lemma getitem_too_many_indices (a : DataArray) (key : list indexer) :
  (List.length (dims a) < List.length key)%nat ->
  getitem key a = Except IndexError.
Proof.
  intros H. unfold getitem.
  destruct (Nat.ltb_spec (List.length (dims a)) (List.length key)); [reflexivity | lia].
Qed.

(** X3: [qdp[0,:,:]] selects along whatever dimension comes first.  On an
    array with fewer than three dimensions it raises IndexError; when
    'time' is the first dimension it is the same as [qdp.isel(time=0)];
    when another dimension d comes first the two differ: the bracket
    result has lost d, the [isel] result still has it. *)
Theorem positional_slice_follows_axis_order (qdp : DataArray) (d : string)
  (rest : list string) :
  dims qdp = d :: rest ->
  NoDup (dims qdp) ->
  ((List.length rest < 2)%nat ->
   first_month_by_position qdp = Except IndexError) /\
  ((2 <= List.length rest)%nat ->
   first_month_by_position qdp = isel d 0 qdp /\
   (d = "time"%string -> first_month_by_position qdp = first_month qdp) /\
   (d <> "time"%string ->
    forall b c,
      first_month_by_position qdp = Return b ->
      first_month qdp = Return c ->
      ~ In d (dims b) /\ In d (dims c))).
Proof.
  intros Hd Hnd. split.
  - intros Hlen. apply getitem_too_many_indices. rewrite Hd. simpl. lia.
  - intros Hlen.
    assert (Heq : first_month_by_position qdp = isel d 0 qdp)
      by now apply (getitem_first_axis qdp d rest).
    split; [exact Heq |]. split.
    + intros ->. exact Heq.
    + intros Hne b c Hb Hc. rewrite Heq in Hb.
      assert (Hmemd : mem d (dims qdp) = true).
      { apply mem_In. rewrite Hd. now left. }
      unfold first_month in Hc.
      destruct (mem "time" (dims qdp)) eqn:Hmemt.
      2:{ rewrite isel_unknown_dim in Hc by exact Hmemt. discriminate. }
      unfold isel, isel_axis in Hb, Hc. rewrite Hmemd in Hb. rewrite Hmemt in Hc.
      destruct (py_position _ 0) in Hb; [| discriminate].
      destruct (py_position _ 0) in Hc; [| discriminate].
      injection Hb as <-. injection Hc as <-. cbn [dims]. split.
      * now apply remove_at_index_of.
      * apply remove_at_keeps; [now apply mem_In | exact Hne].
Qed.

Lemma positional_slice_on_monthly_flux :
  let qdp := full ["time"; "nj"; "ni"]%string [12%nat; 2%nat; 3%nat] (Fin 5) in
  first_month_by_position qdp = isel "time" 0 qdp /\
  first_month_by_position qdp = first_month qdp.
Proof.
  intros qdp.
  assert (Hnd : NoDup (dims qdp)).
  { repeat constructor; cbn; intuition discriminate. }
  destruct (positional_slice_follows_axis_order qdp "time" ["nj"; "ni"]%string
              eq_refl Hnd) as [_ H].
  destruct (H ltac:(cbn; lia)) as [H1 [H2 _]].
  split; [exact H1 | exact (H2 eq_refl)].
Defined.

(** ** The monthly maps *)

Lemma months_length : List.length months = 12%nat.
Proof. reflexivity. Qed.

Lemma slider_positions_range (lo hi step m : Z) :
  (0 < step)%Z -> (lo <= hi)%Z ->
  In m (slider_positions lo hi step) -> (lo <= m <= hi)%Z.
Proof.
  intros Hstep Hle Hin. unfold slider_positions in Hin.
  apply in_map_iff in Hin. destruct Hin as [i [<- Hi]].
  apply in_seq in Hi.
  assert (Hq : (0 <= (hi - lo) / step)%Z) by (apply Z.div_pos; lia).
  assert (Hi' : (Z.of_nat i <= (hi - lo) / step)%Z) by lia.
  pose proof (Z.mul_div_le (hi - lo) step Hstep) as Hm.
  nia.
Qed.

Lemma sh_in_range (qdp : DataArray) (month : Z) :
  mem "time" (dims qdp) = true ->
  (- Z.of_nat (Nat.min (size_of qdp "time") 12) <= month
   < Z.of_nat (Nat.min (size_of qdp "time") 12))%Z ->
  exists slice label,
    sh qdp month = Return (neg slice, label) /\
    isel "time" month qdp = Return slice /\
    py_getitem months month = Return label.
Proof.
  intros Hmem Hm.
  destruct (isel_in_range "time" month qdp Hmem ltac:(lia)) as [j [_ Hs]].
  destruct (py_getitem_in_range string months month
              ltac:(rewrite months_length; lia)) as [p [label [_ [_ Hl]]]].
  eexists. exists label. unfold sh. rewrite Hs, Hl. cbn [py_bind].
  split; [reflexivity |]. split; reflexivity.
Qed.

(** X4: [sh(month)] raises ValueError when the flux has no 'time'
    dimension.  Otherwise, with n the smaller of the number of time steps
    and 12, it succeeds exactly for -n <= month < n, contouring the
    negated slice [isel(time=month)] and writing [months[month]], and
    raises IndexError for every other month. *)
Theorem sh_outcomes (qdp : DataArray) (month : Z) :
  (mem "time" (dims qdp) = false -> sh qdp month = Except (Xr ValueError)) /\
  (mem "time" (dims qdp) = true ->
   let n := Z.of_nat (Nat.min (size_of qdp "time") 12) in
   ((- n <= month < n)%Z ->
    exists slice label,
      sh qdp month = Return (neg slice, label) /\
      isel "time" month qdp = Return slice /\
      py_getitem months month = Return label) /\
   ((month < - n \/ n <= month)%Z -> sh qdp month = Except IndexError)).
Proof.
  split.
  - intros Hmem. unfold sh. now rewrite isel_unknown_dim.
  - intros Hmem n. split.
    + intros Hm. now apply sh_in_range.
    + intros Hm. unfold n in Hm. unfold sh.
      destruct (Z.lt_ge_cases month (- Z.of_nat (size_of qdp "time")))
        as [Hlow | Hlow].
      { rewrite isel_out_of_range by (try assumption; lia). reflexivity. }
      destruct (Z.lt_ge_cases month (Z.of_nat (size_of qdp "time")))
        as [Hhigh | Hhigh].
      2:{ rewrite isel_out_of_range by (try assumption; lia). reflexivity. }
      destruct (isel_in_range "time" month qdp Hmem ltac:(lia)) as [j [_ Hs]].
      rewrite Hs. cbn [py_bind].
      rewrite py_getitem_out_of_range by (rewrite months_length; lia).
      reflexivity.
Qed.

Lemma sh_outcomes_july :
  let qdp := full ["time"; "nj"; "ni"]%string [12%nat; 2%nat; 3%nat] (Fin 5) in
  (exists slice label,
     sh qdp 6 = Return (neg slice, label) /\
     isel "time" 6 qdp = Return slice /\
     py_getitem months 6 = Return label) /\
  sh qdp 12 = Except IndexError.
Proof.
  intros qdp.
  destruct (proj2 (sh_outcomes qdp 6) eq_refl) as [Hin _].
  destruct (proj2 (sh_outcomes qdp 12) eq_refl) as [_ Hout].
  split; [apply Hin; cbn; lia | apply Hout; cbn; lia].
Defined.

(** X5: with twelve time steps every position of the slider of
    interact(sh, month=(0,11,1)) is a month for which [sh] succeeds, and
    the text it writes is the name of that month. *)
Theorem interact_sh_never_fails (qdp : DataArray) :
  mem "time" (dims qdp) = true ->
  size_of qdp "time" = 12%nat ->
  Forall (fun month =>
            exists slice,
              isel "time" month qdp = Return slice /\
              sh qdp month =
              Return (neg slice, nth (Z.to_nat month) months ""%string))
         (slider_positions 0 11 1).
Proof.
  intros Hmem Hsize. apply Forall_forall. intros month Hin.
  apply slider_positions_range in Hin; [| lia | lia].
  destruct (sh_in_range qdp month Hmem ltac:(rewrite Hsize; cbn; lia))
    as [slice [label [Hsh [Hs Hl]]]].
  exists slice. split; [exact Hs |]. rewrite Hsh. do 2 f_equal.
  unfold py_getitem in Hl.
  rewrite py_position_nonneg in Hl by (rewrite months_length; lia).
  destruct (nth_error months (Z.to_nat month)) as [x |] eqn:Hx;
    [| discriminate].
  injection Hl as <-. symmetry. now apply nth_error_nth.
Qed.

Lemma interact_sh_on_monthly_flux :
  Forall (fun month =>
            exists slice,
              isel "time" month
                (full ["time"; "nj"; "ni"]%string [12%nat; 2%nat; 3%nat] (Fin 5))
              = Return slice /\
              sh (full ["time"; "nj"; "ni"]%string [12%nat; 2%nat; 3%nat] (Fin 5))
                 month =
              Return (neg slice, nth (Z.to_nat month) months ""%string))
         (slider_positions 0 11 1).
Proof.
  apply (interact_sh_never_fails
           (full ["time"; "nj"; "ni"]%string [12%nat; 2%nat; 3%nat] (Fin 5)));
    reflexivity.
Defined.

(** ** Negation and the mean over time *)

Lemma xopp_signed_inf (r : R) : signed_inf (- r) = xopp (signed_inf r).
Proof.
  unfold signed_inf, Rsign.
  destruct (total_order_T r 0) as [[H | H] | H];
    destruct (total_order_T (- r) 0) as [[H' | H'] | H'];
    try reflexivity; lra.
Qed.

Lemma xadd_xopp (x y : xfloat) : xadd (xopp x) (xopp y) = xopp (xadd x y).
Proof.
  destruct x as [a | | |], y as [b | | |]; cbn [xadd xopp]; try reflexivity.
  f_equal. ring.
Qed.

Lemma xdiv_xopp (x : xfloat) (c : R) :
  xdiv (xopp x) (Fin c) = xopp (xdiv x (Fin c)).
Proof.
  destruct x as [a | | |]; cbn [xdiv xopp]; try reflexivity.
  - destruct (Rsign c) eqn:Hc.
    + apply xopp_signed_inf.
    + cbn [xopp]. f_equal. unfold Rdiv. ring.
    + cbn [xopp]. f_equal. unfold Rdiv. ring.
  - now destruct (Rsign c).
  - now destruct (Rsign c).
Qed.

Lemma xsum_xopp (l : list xfloat) :
  xsum (map nan_to_zero (map xopp l)) = xopp (xsum (map nan_to_zero l)).
Proof.
  induction l as [| x l IH].
  - cbn [map xsum fold_right xopp]. f_equal. ring.
  - change (xsum (map nan_to_zero (map xopp (x :: l))))
      with (xadd (nan_to_zero (xopp x)) (xsum (map nan_to_zero (map xopp l)))).
    change (xsum (map nan_to_zero (x :: l)))
      with (xadd (nan_to_zero x) (xsum (map nan_to_zero l))).
    rewrite IH, <- xadd_xopp. f_equal.
    destruct x as [a | | |]; cbn [xopp nan_to_zero is_nan]; try reflexivity.
    f_equal. ring.
Qed.

Lemma count_valid_xopp (l : list xfloat) :
  count_valid (map xopp l) = count_valid l.
Proof.
  unfold count_valid. induction l as [| x l IH]; [reflexivity |].
  cbn [map filter]. destruct x; cbn [xopp is_nan negb List.length];
    simpl in IH |- *; now rewrite ?IH.
Qed.

(** The mean of the negated entries is the negated mean, whatever the
    entries. *)
Lemma nanmean_xopp (l : list xfloat) :
  nanmean (map xopp l) = xopp (nanmean l).
Proof.
  unfold nanmean. now rewrite xsum_xopp, count_valid_xopp, xdiv_xopp.
Qed.

Ltac eval_names_using tac :=
  repeat (cbn [forallb filter app map mem existsb negb orb andb nodupb keep
               index_of nth select hd tl];
          tac;
          rewrite ?String.eqb_refl;
          cbn [String.eqb Ascii.eqb Bool.eqb]).

Lemma mean_time_3d (d1 d2 : string) (a : DataArray) (t ny nx : nat) :
  d1 <> "time"%string -> d2 <> "time"%string ->
  dims a = ["time"%string; d1; d2] -> sizes a = [t; ny; nx] ->
  exists r, mean ["time"%string] a = Ok r /\
    dims r = [d1; d2] /\ sizes r = [ny; nx] /\
    forall y x, values r [y; x] =
      nanmean (map (fun k => values a [k; y; x]) (seq 0 t)).
Proof.
  intros H1 H2 Hd Hs. unfold mean. rewrite Hd, Hs.
  pose proof (proj2 (String.eqb_neq d1 "time") H1) as E1.
  pose proof (proj2 (String.eqb_neq d2 "time") H2) as E2.
  pose proof (eqb_neq_sym d1 "time" H1) as E3.
  pose proof (eqb_neq_sym d2 "time" H2) as E4.
  eval_names_using ltac:(rewrite ?E1, ?E2, ?E3, ?E4).
  give_array. intros y x. cbn [values gather hd tl].
  now rewrite flat_map_singleton.
Qed.

Lemma isel_time_3d (d1 d2 : string) (a : DataArray) (t ny nx k : nat) :
  dims a = ["time"%string; d1; d2] -> sizes a = [t; ny; nx] ->
  (k < t)%nat ->
  exists s, isel "time" (Z.of_nat k) a = Return s /\
    dims s = [d1; d2] /\ sizes s = [ny; nx] /\
    forall y x, values s [y; x] = values a [k; y; x].
Proof.
  intros Hd Hs Hk.
  assert (Hmem : mem "time" (dims a) = true) by (rewrite Hd; reflexivity).
  assert (Hsize : size_of a "time" = t).
  { unfold size_of. rewrite Hd, Hs. reflexivity. }
  rewrite (isel_nonneg "time" (Z.of_nat k) a Hmem) by (rewrite Hsize; lia).
  rewrite Hd, Hs, Nat2Z.id. eexists. split; [reflexivity |].
  cbn [index_of String.eqb Ascii.eqb Bool.eqb remove_at dims sizes values].
  repeat split.
Qed.

(** X6: for a flux on (time, d1, d2) the plotted annual mean
    [-qdp.mean(dim='time')] is a map on (d1, d2) and is, point by point, the
    NaN-skipping mean of the negated monthly maps [-qdp.isel(time=k)],
    whatever the entries (NaN and infinite ones included). *)
Theorem annual_mean_is_mean_of_monthly_maps (d1 d2 : string) (qdp : DataArray)
  (t ny nx : nat) :
  d1 <> "time"%string -> d2 <> "time"%string ->
  dims qdp = ["time"%string; d1; d2] -> sizes qdp = [t; ny; nx] ->
  exists r, annual_mean_flux_out qdp = Ok r /\
    dims r = [d1; d2] /\ sizes r = [ny; nx] /\
    (forall k, (k < t)%nat ->
       exists s, isel "time" (Z.of_nat k) qdp = Return s /\
                 dims (neg s) = [d1; d2] /\
                 forall y x, values (neg s) [y; x] = xopp (values qdp [k; y; x])) /\
    (forall y x, values r [y; x] =
       nanmean (map (fun k => xopp (values qdp [k; y; x])) (seq 0 t))).
Proof.
  intros H1 H2 Hd Hs.
  destruct (mean_time_3d d1 d2 qdp t ny nx H1 H2 Hd Hs)
    as [m [Hm [Hmd [Hms Hmv]]]].
  unfold annual_mean_flux_out. rewrite Hm. cbn [bind].
  eexists. split; [reflexivity |]. cbn [neg apply_ufunc dims sizes values].
  split; [exact Hmd |]. split; [exact Hms |]. split.
  - intros k Hk.
    destruct (isel_time_3d d1 d2 qdp t ny nx k Hd Hs Hk) as [s [Hsel [Hsd [_ Hsv]]]].
    exists s. split; [exact Hsel |]. split; [exact Hsd |].
    intros y x. now rewrite Hsv.
  - intros y x. rewrite Hmv, <- nanmean_xopp, map_map. reflexivity.
Qed.

Lemma annual_mean_of_constant_flux :
  let qdp := full ["time"; "nj"; "ni"]%string [12%nat; 2%nat; 3%nat] (Fin 5) in
  exists r, annual_mean_flux_out qdp = Ok r /\
    dims r = ["nj"; "ni"]%string /\
    (forall y x, values r [y; x] =
       nanmean (map (fun k => xopp (values qdp [k; y; x])) (seq 0 12))).
Proof.
  intros qdp.
  destruct (annual_mean_is_mean_of_monthly_maps "nj" "ni" qdp 12 2 3
              ltac:(discriminate) ltac:(discriminate) eq_refl eq_refl)
    as [r [Hr [Hd [_ [_ Hv]]]]].
  exists r. split; [exact Hr |]. split; [exact Hd | exact Hv].
Defined.

(** ** The temperature profile above one grid point *)

Section Profile.

Variable Ta : DataArray.
Variables t nl n m : nat.
Hypothesis Hdims : dims Ta = ["time"; "lev"; "lat"; "lon"]%string.
Hypothesis Hsizes : sizes Ta = [t; nl; n; m].

Lemma column_profile_by_name :
  column_profile Ta =
  (a <~ isel "time" 0 Ta ;; b <~ isel "lat" 70 a ;; isel "lon" 115 b).
Proof.
  unfold column_profile, getitem. rewrite Hdims.
  cbn [List.length Nat.ltb Nat.leb combine isel_each].
  destruct (isel "time" 0 Ta) as [a | e]; [| reflexivity]. cbn [py_bind].
  destruct (isel "lat" 70 a) as [b | e]; [| reflexivity]. cbn [py_bind].
  apply py_bind_return.
Qed.

Lemma column_profile_ok :
  (1 <= t)%nat -> (71 <= n)%nat -> (116 <= m)%nat ->
  exists p, column_profile Ta = Return p /\
    dims p = ["lev"%string] /\ sizes p = [nl] /\
    forall l, values p [l] = values Ta [0%nat; l; 70%nat; 115%nat].
Proof.
  intros Ht Hn Hm. rewrite column_profile_by_name.
  rewrite (isel_nonneg "time" 0 Ta)
    by (unfold size_of; rewrite Hdims, ?Hsizes; cbn; try reflexivity; lia).
  rewrite Hdims, Hsizes.
  cbn [py_bind index_of String.eqb Ascii.eqb Bool.eqb remove_at].
  rewrite isel_nonneg
    by (unfold size_of; cbn [dims sizes index_of String.eqb Ascii.eqb Bool.eqb nth];
        try reflexivity; lia).
  cbn [py_bind dims sizes values index_of String.eqb Ascii.eqb Bool.eqb remove_at].
  rewrite isel_nonneg
    by (unfold size_of; cbn [dims sizes index_of String.eqb Ascii.eqb Bool.eqb nth];
        try reflexivity; lia).
  cbn [dims sizes values index_of String.eqb Ascii.eqb Bool.eqb remove_at].
  eexists. split; [reflexivity |]. cbn [dims sizes values].
  split; [reflexivity |]. split; [reflexivity |].
  intros l. f_equal.
Qed.

Lemma column_profile_out_of_range :
  (t = 0 \/ n < 71 \/ m < 116)%nat ->
  column_profile Ta = Except IndexError.
Proof.
  intros Hbad. rewrite column_profile_by_name.
  destruct (Nat.eq_dec t 0) as [Ht | Ht].
  { rewrite isel_out_of_range; [reflexivity | now rewrite Hdims |].
    unfold size_of. rewrite Hdims, Hsizes. cbn. lia. }
  rewrite (isel_nonneg "time" 0 Ta)
    by (unfold size_of; rewrite Hdims, ?Hsizes; cbn; try reflexivity; lia).
  rewrite Hdims, Hsizes.
  cbn [py_bind index_of String.eqb Ascii.eqb Bool.eqb remove_at].
  destruct (Nat.lt_ge_cases n 71) as [Hn | Hn].
  { rewrite isel_out_of_range; [reflexivity | reflexivity |].
    unfold size_of. cbn [dims sizes index_of String.eqb Ascii.eqb Bool.eqb nth].
    lia. }
  rewrite isel_nonneg
    by (unfold size_of; cbn [dims sizes index_of String.eqb Ascii.eqb Bool.eqb nth];
        try reflexivity; lia).
  cbn [py_bind dims sizes values index_of String.eqb Ascii.eqb Bool.eqb remove_at].
  apply isel_out_of_range; [reflexivity |].
  unfold size_of. cbn [dims sizes index_of String.eqb Ascii.eqb Bool.eqb nth].
  lia.
Qed.

End Profile.

(** X7: on a temperature with dimensions (time, lev, lat, lon) the
    bracket expression [Ta[0,:,70,115]] is the selection by name
    isel(time=0), isel(lat=70), isel(lon=115).  With at least 1 time step,
    71 latitudes and 116 longitudes it returns the column above that grid
    point, one value per level; otherwise it raises IndexError. *)
Theorem column_profile_outcomes (Ta : DataArray) (t nl n m : nat) :
  dims Ta = ["time"; "lev"; "lat"; "lon"]%string ->
  sizes Ta = [t; nl; n; m] ->
  column_profile Ta =
    (a <~ isel "time" 0 Ta ;; b <~ isel "lat" 70 a ;; isel "lon" 115 b) /\
  ((1 <= t)%nat /\ (71 <= n)%nat /\ (116 <= m)%nat ->
   exists p, column_profile Ta = Return p /\
     dims p = ["lev"%string] /\ sizes p = [nl] /\
     forall l, values p [l] = values Ta [0%nat; l; 70%nat; 115%nat]) /\
  ((t = 0 \/ n < 71 \/ m < 116)%nat ->
   column_profile Ta = Except IndexError).
Proof.
  intros Hd Hs. split; [| split].
  - now apply (column_profile_by_name Ta).
  - intros [Ht [Hn Hm]]. now apply (column_profile_ok Ta t nl n m).
  - now apply (column_profile_out_of_range Ta t nl n m).
Qed.

Lemma column_profile_on_f19_grid :
  let Ta := full ["time"; "lev"; "lat"; "lon"]%string
                 [12%nat; 26%nat; 96%nat; 144%nat] (Fin 250) in
  exists p, column_profile Ta = Return p /\
    dims p = ["lev"%string] /\ sizes p = [26%nat].
Proof.
  intros Ta.
  destruct (column_profile_outcomes Ta 12 26 96 144 eq_refl eq_refl)
    as [_ [Hok _]].
  destruct (Hok ltac:(lia)) as [p [Hp [Hd [Hs _]]]].
  exists p. split; [exact Hp |]. split; [exact Hd | exact Hs].
Defined.

(** ** Exchanging and splitting sums *)






(** ** A transposed field *)


Section Transposed.

Variable atm_control : Dataset.
Variable lats : list R.
Hypothesis Hlat : lat atm_control = lat_coord lats.
Hypothesis Hne : lats <> [].
Hypothesis Hsum : Rsum (map cosd lats) <> 0.


End Transposed.



(** ** Renaming a variable of the dataset *)

Lemma lookup_In (k : string) (v : DataArray) (ds : Variables) :
  lookup k ds = Some v -> In (k, v) ds.
Proof.
  induction ds as [| [k' v'] ds IH]; [discriminate |].
  cbn [lookup]. destruct (String.eqb_spec k k') as [-> | Hne].
  - intros H. injection H as ->. now left.
  - intros H. right. now apply IH.
Qed.

Lemma contains_true (k : string) (ds : Variables) :
  contains k ds = true <-> exists v, lookup k ds = Some v.
Proof.
  unfold contains. destruct (lookup k ds) as [v |].
  - split; [intros _; now exists v | reflexivity].
  - split; [discriminate | intros [v Hv]; discriminate].
Qed.

Lemma contains_false (k : string) (ds : Variables) :
  contains k ds = false <-> lookup k ds = None.
Proof.
  unfold contains. destruct (lookup k ds); split; congruence.
Qed.

Section Renamed.

Variables old new : string.
Variable ds : Variables.
Hypothesis Hnew : lookup new ds = None.

Lemma lookup_renamed_new (v : DataArray) :
  lookup old ds = Some v ->
  exists v', lookup new (map (rename_variable old new) ds) = Some v' /\
             renamed_array old new v v'.
Proof.
  revert Hnew. induction ds as [| [k' w] rest IH]; [discriminate |].
  cbn [lookup map rename_variable fst snd]. unfold renamed at 1.
  destruct (String.eqb_spec new k') as [-> | Hnk]; [discriminate |].
  intros Hn. destruct (String.eqb_spec old k') as [-> | Hok].
  - intros H. injection H as ->. rewrite String.eqb_refl, String.eqb_refl.
    eexists. split; [reflexivity |]. repeat split.
  - apply String.eqb_neq in Hok. rewrite String.eqb_sym in Hok. rewrite Hok.
    apply String.eqb_neq in Hnk. rewrite Hnk. now apply IH.
Qed.

Lemma lookup_renamed_old :
  old <> new -> lookup old (map (rename_variable old new) ds) = None.
Proof.
  intros Hne. clear Hnew. induction ds as [| [k' w] rest IH]; [reflexivity |].
  cbn [lookup map rename_variable fst snd]. unfold renamed at 1.
  destruct (String.eqb_spec k' old) as [-> | Hk].
  - apply String.eqb_neq in Hne. rewrite Hne. exact IH.
  - apply not_eq_sym, String.eqb_neq in Hk. rewrite Hk. exact IH.
Qed.

Lemma lookup_renamed_other (k : string) :
  k <> old -> k <> new ->
  match lookup k ds with
  | Some v => exists v', lookup k (map (rename_variable old new) ds) = Some v' /\
                         renamed_array old new v v'
  | None => lookup k (map (rename_variable old new) ds) = None
  end.
Proof.
  intros Hko Hkn. clear Hnew. induction ds as [| [k' w] rest IH]; [reflexivity |].
  cbn [lookup map rename_variable fst snd]. unfold renamed at 1 3.
  destruct (String.eqb_spec k' old) as [-> | Hk'].
  - apply String.eqb_neq in Hko, Hkn. rewrite Hko, Hkn. exact IH.
  - destruct (String.eqb_spec k k') as [-> | Hkk'].
    + eexists. split; [reflexivity |]. repeat split.
    + exact IH.
Qed.

End Renamed.

Lemma rename_succeeds (old new : string) (ds : Variables) :
  contains old ds = true -> contains new ds = false ->
  rename old new ds = Return (map (rename_variable old new) ds) /\ old <> new.
Proof.
  intros Ho Hn. unfold rename. rewrite Ho, Hn. split; [reflexivity |].
  intros ->. congruence.
Qed.

Lemma rename_Return (old new : string) (ds ds' : Variables) :
  rename old new ds = Return ds' -> ds' = map (rename_variable old new) ds.
Proof.
  unfold rename.
  destruct (negb (contains old ds) && negb (has_dimension old ds));
    [discriminate |].
  destruct (contains new ds && negb (String.eqb old new)); [discriminate |].
  intros H. now injection H.
Qed.

Lemma mem_false (d : string) (l : list string) : ~ In d l -> mem d l = false.
Proof.
  intros H. destruct (mem d l) eqn:Hm; [| reflexivity].
  exfalso. apply H. now apply mem_In.
Qed.

(** After the renaming no dimension carries the old name. *)
Lemma has_dimension_renamed (old new : string) (ds : Variables) :
  old <> new -> has_dimension old (map (rename_variable old new) ds) = false.
Proof.
  intros Hne. unfold has_dimension.
  induction ds as [| [k v] rest IH]; [reflexivity |].
  cbn [map existsb rename_variable fst snd dims]. rewrite IH, orb_false_r.
  apply mem_false. intros Hin. apply in_map_iff in Hin.
  destruct Hin as [e [He _]]. unfold renamed in He.
  destruct (String.eqb_spec e old); congruence.
Qed.

(** X9: [ds.rename({old: new})] raises ValueError when [old] is neither
    a variable nor a dimension of the dataset, and when [new] is another
    variable of it.  When [old] is a variable and [new] is unused, the
    dataset keeps the number and the order of its variables; looking up
    [old] is then a KeyError, [new] gives the data that was under [old],
    and every other name gives the data it gave before (dimension names
    mapped through the dictionary, sizes and values untouched). *)
Theorem rename_outcomes (old new : string) (ds : Variables) :
  (contains old ds = false -> has_dimension old ds = false ->
   rename old new ds = Except (Xr ValueError)) /\
  (contains new ds = true -> old <> new ->
   rename old new ds = Except (Xr ValueError)) /\
  (contains old ds = true -> contains new ds = false ->
   no_dimension new ds ->
   exists ds', rename old new ds = Return ds' /\
     map fst ds' = map (renamed old new) (map fst ds) /\
     ds_getitem ds' old = Except KeyError /\
     has_dimension old ds' = false /\
     (forall v, lookup old ds = Some v ->
        exists v', ds_getitem ds' new = Return v' /\ renamed_array old new v v') /\
     (forall k v, k <> old -> k <> new -> lookup k ds = Some v ->
        exists v', ds_getitem ds' k = Return v' /\ renamed_array old new v v')).
Proof.
  split; [| split].
  - intros H H'. unfold rename. now rewrite H, H'.
  - intros H Hne. unfold rename. rewrite H.
    apply String.eqb_neq in Hne. rewrite Hne.
    now destruct (negb (contains old ds) && negb (has_dimension old ds)).
  - intros Ho Hn _. destruct (rename_succeeds old new ds Ho Hn) as [Hr Hne].
    apply contains_false in Hn.
    eexists. split; [exact Hr |]. split; [| split; [| split; [| split]]].
    + rewrite !map_map. reflexivity.
    + unfold ds_getitem. now rewrite lookup_renamed_old.
    + now apply has_dimension_renamed.
    + intros v Hv. destruct (lookup_renamed_new old new ds Hn v Hv) as [v' [Hl Hd]].
      exists v'. unfold ds_getitem. rewrite Hl. now split.
    + intros k v Hko Hkn Hv.
      pose proof (lookup_renamed_other old new ds k Hko Hkn) as H.
      rewrite Hv in H. destruct H as [v' [Hl Hd]].
      exists v'. unfold ds_getitem. rewrite Hl. now split.
Qed.

Lemma rename_outcomes_example :
  let ds := [("T"%string, vector "lev" [Fin 250; Fin 220]);
             ("FLNT"%string, scalar (Fin 240))] in
  exists ds', rename "T" "Ta" ds = Return ds' /\
    map fst ds' = ["Ta"; "FLNT"]%string /\
    ds_getitem ds' "T" = Except KeyError /\
    (exists v', ds_getitem ds' "Ta" = Return v' /\
                values v' = values (vector "lev" [Fin 250; Fin 220])).
Proof.
  intros ds.
  assert (Hdim : no_dimension "Ta" ds).
  { intros k v [H | [H | []]]; injection H as <- <-; cbn; intuition discriminate. }
  destruct (rename_outcomes "T" "Ta" ds) as [_ [_ H]].
  destruct (H eq_refl eq_refl Hdim) as [ds' [Hr [Hk [Hold [_ [Hnew _]]]]]].
  exists ds'. split; [exact Hr |]. split; [exact Hk |]. split; [exact Hold |].
  destruct (Hnew (vector "lev" [Fin 250; Fin 220]) eq_refl)
    as [v' [Hv' [_ [_ Hval]]]].
  exists v'. split; [exact Hv' | exact Hval].
Defined.

(** X10: the renaming cell cannot run twice: when it showed a variable,
    that variable holds the data that was under 'T', and running the cell
    again raises ValueError ('T' is no longer in the dataset) and leaves
    the dataset as the first run left it. *)
Theorem cell_rename_runs_once (ds : Variables) (v : DataArray) :
  snd (cell_rename ds) = Return v ->
  (exists v0, lookup "T" ds = Some v0 /\ renamed_array "T" "Ta" v0 v) /\
  cell_rename (fst (cell_rename ds)) =
  (fst (cell_rename ds), Except (Xr ValueError)).
Proof.
  unfold cell_rename.
  destruct (rename "T" "Ta" ds) as [ds' |] eqn:Hr; cbn [fst snd];
    [| discriminate].
  intros Hv. pose proof (rename_Return _ _ _ _ Hr) as ->.
  assert (Hgone : rename "T" "Ta" (map (rename_variable "T" "Ta") ds)
                  = Except (Xr ValueError)).
  { unfold rename.
    replace (contains "T" (map (rename_variable "T" "Ta") ds)) with false
      by (symmetry; apply contains_false, lookup_renamed_old; discriminate).
    now rewrite has_dimension_renamed by discriminate. }
  rewrite Hgone. split; [| reflexivity].
  unfold rename in Hr.
  destruct (contains "Ta" ds) eqn:Hn.
  { cbn [String.eqb Ascii.eqb Bool.eqb negb andb] in Hr.
    now destruct (negb (contains "T" ds) && negb (has_dimension "T" ds)). }
  apply contains_false in Hn.
  destruct (lookup "T" ds) as [v0 |] eqn:Hv0.
  - exists v0. split; [reflexivity |].
    destruct (lookup_renamed_new "T" "Ta" ds Hn v0 Hv0) as [v' [Hl Hd]].
    unfold ds_getattr in Hv. rewrite Hl in Hv. now injection Hv as <-.
  - exfalso.
    assert (Hnone : lookup "Ta" (map (rename_variable "T" "Ta") ds) = None).
    { clear Hr Hv Hgone. induction ds as [| [k w] rest IH]; [reflexivity |].
      cbn [lookup] in Hn, Hv0.
      destruct (String.eqb_spec "Ta" k) as [<- | Hk1]; [discriminate |].
      destruct (String.eqb_spec "T" k) as [<- | Hk2]; [discriminate |].
      cbn [map lookup rename_variable fst snd]. unfold renamed at 1.
      apply not_eq_sym, String.eqb_neq in Hk2. rewrite Hk2.
      apply String.eqb_neq in Hk1. rewrite Hk1. now apply IH. }
    unfold ds_getattr in Hv. rewrite Hnone in Hv. discriminate.
Qed.

Lemma cell_rename_runs_once_example :
  let ds := [("T"%string, scalar (Fin 250)); ("FLNT"%string, scalar (Fin 240))] in
  (exists v0, lookup "T" ds = Some v0 /\
              renamed_array "T" "Ta" v0 (scalar (Fin 250))) /\
  cell_rename (fst (cell_rename ds)) =
  (fst (cell_rename ds), Except (Xr ValueError)).
Proof.
  intros ds. apply (cell_rename_runs_once ds (scalar (Fin 250))). reflexivity.
Defined.

Lemma In_lookup_some (k : string) (v : DataArray) (ds : Variables) :
  In (k, v) ds -> lookup k ds <> None.
Proof.
  induction ds as [| [k' w] rest IH]; [intros [] |].
  intros [H | H]; cbn [lookup].
  - injection H as -> ->. now rewrite String.eqb_refl.
  - destruct (String.eqb k k'); [discriminate | now apply IH].
Qed.

Lemma renamed_back (old new d : string) :
  d <> new -> renamed new old (renamed old new d) = d.
Proof.
  intros Hd. unfold renamed.
  destruct (String.eqb_spec d old) as [-> | Hdo].
  - now rewrite String.eqb_refl.
  - apply String.eqb_neq in Hd. now rewrite Hd.
Qed.

Lemma renamed_same (old new d : string) : d <> old -> renamed old new d = d.
Proof.
  intros Hd. unfold renamed. apply String.eqb_neq in Hd. now rewrite Hd.
Qed.

Lemma map_id_on (A : Type) (f : A -> A) (l : list A) :
  (forall x, In x l -> f x = x) -> map f l = l.
Proof.
  intros H. induction l as [| x l IH]; [reflexivity |].
  cbn [map]. rewrite H by now left. f_equal. apply IH.
  intros y Hy. apply H. now right.
Qed.

Lemma renamed_array_same (old new : string) (v v' : DataArray) :
  ~ In old (dims v) -> renamed_array old new v v' -> v' = v.
Proof.
  intros Hno [Hd [Hs Hv]]. destruct v as [d s f], v' as [d' s' f'].
  cbn [dims sizes values] in *. subst. f_equal.
  apply map_id_on. intros x Hx. apply renamed_same. congruence.
Qed.

(** X11: renaming back undoes a renaming: when no dimension of the dataset
    is called [new], [ds.rename({old: new})] followed by
    [rename({new: old})] gives the dataset one started from. *)
Theorem rename_round_trip (old new : string) (ds : Variables) :
  contains old ds = true ->
  contains new ds = false ->
  no_dimension new ds ->
  exists ds', rename old new ds = Return ds' /\ rename new old ds' = Return ds.
Proof.
  intros Ho Hn Hdim. destruct (rename_succeeds old new ds Ho Hn) as [Hr Hne].
  eexists. split; [exact Hr |].
  apply contains_true in Ho. destruct Ho as [v Hv].
  apply contains_false in Hn.
  destruct (lookup_renamed_new old new ds Hn v Hv) as [v' [Hl _]].
  unfold rename.
  replace (contains new (map (rename_variable old new) ds)) with true
    by (symmetry; apply contains_true; now exists v').
  replace (contains old (map (rename_variable old new) ds)) with false
    by (symmetry; apply contains_false; now apply lookup_renamed_old).
  cbn [negb andb]. apply f_equal. rewrite map_map. apply map_id_on.
  intros [k w] Hin. unfold rename_variable. cbn [fst snd dims sizes values].
  assert (Hk : k <> new).
  { intros ->. now apply (In_lookup_some new w ds Hin). }
  rewrite renamed_back by exact Hk. f_equal.
  destruct w as [d s f]. cbn [dims sizes values]. f_equal.
  rewrite map_map. apply map_id_on. intros x Hx. apply renamed_back.
  intros ->. now apply (Hdim k _ Hin).
Qed.

Lemma rename_round_trip_example :
  let ds := [("T"%string, vector "lev" [Fin 250; Fin 220]);
             ("FLNT"%string, scalar (Fin 240))] in
  exists ds', rename "T" "Ta" ds = Return ds' /\ rename "Ta" "T" ds' = Return ds.
Proof.
  intros ds. apply (rename_round_trip "T" "Ta" ds); try reflexivity.
  intros k v [H | [H | []]]; injection H as <- <-; cbn; intuition discriminate.
Defined.

(** X12: renaming T to Ta does not touch what the weighting cells read:
    when no variable has a dimension called 'T', the variables lat, lon,
    gw and FLNT found in the renamed dataset are the ones found before, so
    the weights and the printed global means are the same. *)
Theorem rename_keeps_weighting_inputs (ds ds' : Variables) (atm : Dataset) :
  rename "T" "Ta" ds = Return ds' ->
  no_dimension "T" ds ->
  weighting_inputs ds = Return atm ->
  weighting_inputs ds' = Return atm /\
  (forall atm', weighting_inputs ds' = Return atm' ->
     weight_factor atm' = weight_factor atm /\
     FLNT_global_mean atm' = FLNT_global_mean atm /\
     FLNT_global_mean2 atm' = FLNT_global_mean2 atm).
Proof.
  intros Hr Hdim Hin.
  assert (Hsame : weighting_inputs ds' = Return atm).
  { apply rename_Return in Hr. subst ds'.
    assert (Hkeep : forall k, k <> "T"%string -> k <> "Ta"%string ->
              ds_getattr (map (rename_variable "T" "Ta") ds) k = ds_getattr ds k).
    { intros k Hk1 Hk2. unfold ds_getattr.
      pose proof (lookup_renamed_other "T" "Ta" ds k Hk1 Hk2) as H.
      destruct (lookup k ds) as [v |] eqn:Hv.
      - destruct H as [v' [Hl Hd]]. rewrite Hl. f_equal.
        apply (renamed_array_same "T" "Ta"); [| exact Hd].
        apply (Hdim k). now apply lookup_In.
      - now rewrite H. }
    unfold weighting_inputs in *.
    rewrite !Hkeep by discriminate. exact Hin. }
  split; [exact Hsame |].
  intros atm' H'. rewrite Hsame in H'. injection H' as <-. repeat split.
Qed.

Lemma rename_keeps_weighting_inputs_example :
  let ds := [("lat"%string, lat_coord [0]); ("lon"%string, vector "lon" [Fin 0]);
             ("gw"%string, vector "lat" [Fin 1]);
             ("FLNT"%string, full ["time"; "lat"; "lon"]%string
                                  [1%nat; 1%nat; 1%nat] (Fin 240));
             ("T"%string, full ["time"; "lev"; "lat"; "lon"]%string
                               [1%nat; 2%nat; 1%nat; 1%nat] (Fin 250))] in
  exists ds' atm, rename "T" "Ta" ds = Return ds' /\
    weighting_inputs ds = Return atm /\
    weighting_inputs ds' = Return atm.
Proof.
  intros ds.
  assert (Hdim : no_dimension "T" ds).
  { intros k v [H | [H | [H | [H | [H | []]]]]]; injection H as <- <-;
      cbn; intuition discriminate. }
  eexists. eexists. split; [reflexivity |]. split; [reflexivity |].
  exact (proj1 (rename_keeps_weighting_inputs ds _ _ eq_refl Hdim eq_refl)).
Defined.

(** ** The cloud radiative effect *)





(** ** The Gaussian weights *)





Section Gauss.

Variable atm_control : Dataset.
Variable gs : list R.
Hypothesis Hgw : gw atm_control = vector "lat" (map Fin gs).




End Gauss.







(** X17: the comparison cell's reduction over ('time', 'lon', 'lat') needs
    all three axes: on a (lat, lon) map, such as a field whose time axis
    has been averaged out already, it raises ValueError. *)
Theorem global_mean_needs_time_axis (atm_control : Dataset) (lats : list R)
  (field : DataArray) (m : nat) :
  lat atm_control = lat_coord lats ->
  dims field = ["lat"; "lon"]%string ->
  sizes field = [List.length lats; m] ->
  global_average atm_control ["time"; "lon"; "lat"]%string field
  = Raise ValueError.
Proof.
  intros Hlat Hd Hs. unfold global_average, weighted_mean.
  destruct (weight_factor_raw atm_control lats Hlat) as [w [Hw [Hwd [Hws _]]]].
  rewrite Hw. cbn [bind].
  destruct (multiply_2d w _ Hwd Hws field m Hd Hs) as [p [Hp [Hpd _]]].
  rewrite Hp. cbn [bind]. apply mean_missing_dim. rewrite Hpd. reflexivity.
Qed.

Lemma global_mean_needs_time_axis_example :
  global_average (dataset_on [-45; 45]) ["time"; "lon"; "lat"]%string
    (full ["lat"; "lon"]%string [2%nat; 3%nat] (Fin 240))
  = Raise ValueError.
Proof.
  apply (global_mean_needs_time_axis (dataset_on [-45; 45]) [-45; 45] _ 3);
    reflexivity.
Defined.
